(** * mcp-markdown-rules: the rule repository of [src/index.ts]

    A shallow embedding of the directory scanner ([getProjectRules]), the
    rules cache ([getCachedProjectRules], the watcher callback of
    [setupFileWatcher]) and the query surface ([getAvailableRuleTypes], the
    [CallToolRequestSchema] handler), followed by the properties of the
    specification that concern them.

    Conventions of the embedding:
    - a JavaScript string is a [string]; [toUpperCase] is given on the ASCII
      range, where it is what ECMAScript prescribes, and leaves every other
      code unit as it is;
    - [Record<string, string>] built from the literal [{}] is the list of its
      own properties in insertion order (what [Object.keys] and
      [Object.entries] enumerate; no key produced by the scanner is an
      integer index), together with the properties the literal inherits from
      [Object.prototype];
    - [Date.now()] is an integer number of milliseconds, a [Z];
    - the file system is an argument: what [existsSync], [readdirSync] and
      [readFileSync] answer during one scan;
    - [console.log] and [console.error] are a list of [Console] lines that
      each operation returns next to its result. *)

From Stdlib Require Import String Ascii List ZArith Bool Arith Lia.
Import ListNotations.

Local Open Scope string_scope.
Local Open Scope list_scope.

(* ================================================================== *)
(** ** JavaScript string primitives *)
(* ================================================================== *)

Module JS.

(** One code unit of [String.prototype.toUpperCase]: [a]..[z] (97..122)
    lose 32. This is the case map of ECMAScript on strings of ASCII code
    units only; on other code units the real map differs (it changes
    accented letters and can lengthen the string). A statement that needs
    more of the case map than its being a function says which strings it
    is about. *)
Definition upperChar (c : ascii) : ascii :=
  let n := nat_of_ascii c in
  if (97 <=? n)%nat && (n <=? 122)%nat then ascii_of_nat (n - 32) else c.

Fixpoint toUpperCase (s : string) : string :=
  match s with
  | EmptyString => EmptyString
  | String c s' => String (upperChar c) (toUpperCase s')
  end.

(** [s.endsWith(suffix)]: the last [length suffix] code units of [s] are
    [suffix]; false when [s] is the shorter one. *)
Definition endsWith (s suffix : string) : bool :=
  let n := String.length s in
  let m := String.length suffix in
  if (n <? m)%nat then false
  else String.eqb (substring (n - m) m s) suffix.

(** [s.startsWith(p)]. *)
Fixpoint startsWith (s p : string) {struct p} : bool :=
  match p with
  | EmptyString => true
  | String a p' =>
      match s with
      | EmptyString => false
      | String b s' => Ascii.eqb a b && startsWith s' p'
      end
  end.

(** Removes the first [n] code units. *)
Fixpoint drop (n : nat) (s : string) : string :=
  match n, s with
  | O, _ => s
  | S _, EmptyString => EmptyString
  | S n', String _ s' => drop n' s'
  end.

(** [s.replace(pat, rep)] with a string pattern: only the FIRST occurrence
    of [pat] is replaced; [s] is returned as it is when there is none. *)
Fixpoint replace (pat rep s : string) : string :=
  if startsWith s pat then rep ++ drop (String.length pat) s
  else match s with
       | EmptyString => EmptyString
       | String c s' => String c (replace pat rep s')
       end.

(** [s.includes(pat)]. *)
Fixpoint includes (s pat : string) : bool :=
  if startsWith s pat then true
  else match s with
       | EmptyString => false
       | String _ s' => includes s' pat
       end.

(** [xs.join(sep)]. *)
Definition join (sep : string) (xs : list string) : string :=
  String.concat sep xs.

(** The line feed of the template literals. *)
Definition LF : string := String (ascii_of_nat 10) EmptyString.

End JS.

(* ================================================================== *)
(** ** [Record<string, string>]: an object made by the literal [{}] *)
(* ================================================================== *)

(** Own enumerable properties, in insertion order. *)
Definition Rules : Type := list (string * string).

(** [rules[key] = content]: an own property keeps its place and takes the
    new value, a new one goes last. *)
Fixpoint setProp (key content : string) (rules : Rules) : Rules :=
  match rules with
  | [] => [(key, content)]
  | (k, v) :: rest =>
      if String.eqb k key then (key, content) :: rest
      else (k, v) :: setProp key content rest
  end.

(** The own property [key], if there is one. *)
Fixpoint ownProp (key : string) (rules : Rules) : option string :=
  match rules with
  | [] => None
  | (k, v) :: rest => if String.eqb k key then Some v else ownProp key rest
  end.

(** [Object.keys(rules)]. *)
Definition keys (rules : Rules) : list string := map fst rules.

(** The property names of [Object.prototype], which every object literal
    inherits (ECMAScript 20.1.3 and B.2.2). Each is a function, or for
    [__proto__] the prototype object itself. *)
Definition objectPrototype : list string :=
  [ "constructor"; "hasOwnProperty"; "isPrototypeOf"; "propertyIsEnumerable";
    "toLocaleString"; "toString"; "valueOf"; "__proto__";
    "__defineGetter__"; "__defineSetter__";
    "__lookupGetter__"; "__lookupSetter__" ].

(** What a property read [rules[key]] evaluates to. *)
Inductive Value : Type :=
| Undefined
| Str (s : string)
| Inherited (name : string).

(** [rules[key]]: the own property, else the one of [Object.prototype],
    else [undefined]. *)
Definition getProp (rules : Rules) (key : string) : Value :=
  match ownProp key rules with
  | Some v => Str v
  | None =>
      if existsb (String.eqb key) objectPrototype then Inherited key
      else Undefined
  end.

(** ToBoolean: [undefined] and the empty string are falsy; non-empty
    strings, functions and objects are truthy. *)
Definition truthy (v : Value) : bool :=
  match v with
  | Undefined => false
  | Str s => negb (String.eqb s EmptyString)
  | Inherited _ => true
  end.

(* ================================================================== *)
(** ** The file system seen by one scan *)
(* ================================================================== *)

(** A name returned by [readdirSync(toolDir)], with what
    [readFileSync(filePath, 'utf-8')] does on it: [None] when it throws
    (a directory, a file without read permission). *)
Definition ToolFile : Type := (string * option string)%type.

(** A [Dirent] of the rules directory. For a directory, what
    [readdirSync(toolDir)] does: [None] when it throws. *)
Inductive Dirent : Type :=
| PlainFile (name : string)
| Directory (name : string) (listing : option (list ToolFile)).

(** The rules directory: [existsSync] is false; or it exists and
    [readdirSync(rulesDir, { withFileTypes: true })] throws (not a
    directory, no permission); or it is listed. *)
Inductive RulesDir : Type :=
| RootMissing
| RootUnreadable
| Root (entries : list Dirent).

(** Lines written by [console.log] and [console.error]. *)
Inductive Console : Type :=
| ErrRulesDirNotFound
| ErrReadingToolDir (name : string)
| ErrReadingRulesFiles
| LogRescanning
| LogRulesLoaded (n : nat)
| LogFileChange (filename eventType : string)
| LogCacheInvalidated.

(* ================================================================== *)
(** ** The scanner: [getProjectRules] *)
(* ================================================================== *)

(** The key of one file (index.ts lines 129-132):
    [file === 'README.md' ? `${toolName}-OVERVIEW`
       : `${toolName}-${file.replace('.md', '').toUpperCase()}`]. *)
Definition ruleKey (toolName file : string) : string :=
  if String.eqb file "README.md" then toolName ++ "-OVERVIEW"
  else toolName ++ "-" ++ JS.toUpperCase (JS.replace ".md" EmptyString file).

(** How a block left: normally, or by a thrown exception. *)
Inductive Completion : Type := Normal | Thrown.

(** [toolFiles.forEach((file) => { ... })] (lines 123-136). The writes to
    [rules] made before [readFileSync] throws stay. *)
Fixpoint scanFiles (toolName : string) (toolFiles : list ToolFile)
    (rules : Rules) : Rules * Completion :=
  match toolFiles with
  | [] => (rules, Normal)
  | (file, read) :: rest =>
      if JS.endsWith file ".md" then
        match read with
        | None => (rules, Thrown)
        | Some content =>
            scanFiles toolName rest (setProp (ruleKey toolName file) content rules)
        end
      else scanFiles toolName rest rules
  end.

(** The body of [entries.forEach((entry) => { ... })] (lines 114-141): the
    [try] around one tool directory catches whatever its reads throw and
    reports it on the console. *)
Definition scanEntry (entry : Dirent) (rules : Rules) : Rules * list Console :=
  match entry with
  | PlainFile _ => (rules, [])
  | Directory name listing =>
      let toolName := JS.toUpperCase name in
      match listing with
      | None => (rules, [ErrReadingToolDir name])
      | Some toolFiles =>
          match scanFiles toolName toolFiles rules with
          | (rules', Normal) => (rules', [])
          | (rules', Thrown) => (rules', [ErrReadingToolDir name])
          end
      end
  end.

Fixpoint scanEntries (entries : list Dirent) (rules : Rules)
    : Rules * list Console :=
  match entries with
  | [] => (rules, [])
  | entry :: rest =>
      let (rules1, out1) := scanEntry entry rules in
      let (rules2, out2) := scanEntries rest rules1 in
      (rules2, out1 ++ out2)
  end.

(** [getProjectRules()] (lines 99-147). *)
Definition getProjectRules (rulesDir : RulesDir) : Rules * list Console :=
  match rulesDir with
  | RootMissing => ([], [ErrRulesDirNotFound])
  | RootUnreadable => ([], [ErrReadingRulesFiles])
  | Root entries => scanEntries entries []
  end.

(* ================================================================== *)
(** ** The cache: [getCachedProjectRules] and its invalidation *)
(* ================================================================== *)

(** The module variables [rulesCache] and [lastScanTime] (lines 94-95). *)
Record Cache : Type := mkCache {
  rulesCache : Rules;
  lastScanTime : Z
}.

(** [let rulesCache = {}; let lastScanTime = 0;] *)
Definition initialCache : Cache := mkCache [] 0.

(** The condition of the [if] (lines 154-158). [!rulesCache] is false for
    every object, so it is the other two disjuncts that decide. *)
Definition mustRescan (now : Z) (cache : Cache) : bool :=
  (Nat.eqb (List.length (keys (rulesCache cache))) 0
   || (5000 <? now - lastScanTime cache)%Z)%bool.

(** [getCachedProjectRules()] (lines 150-166), with [now = Date.now()]. *)
Definition getCachedProjectRules (rulesDir : RulesDir) (now : Z) (cache : Cache)
    : Rules * Cache * list Console :=
  if mustRescan now cache then
    let (rules, out) := getProjectRules rulesDir in
    (rules, mkCache rules now,
     [LogRescanning] ++ out ++ [LogRulesLoaded (List.length (keys rules))])
  else (rulesCache cache, cache, []).

(** The two assignments that invalidate the cache (lines 189-190, and
    321-322 for the [r] key): [rulesCache = {}; lastScanTime = 0;]. *)
Definition invalidate (cache : Cache) : Cache := mkCache [] 0.

(** The callback given to [watch] (lines 184-194). [filename] may be
    [null]. *)
Definition onWatchEvent (eventType : string) (filename : option string)
    (cache : Cache) : Cache * list Console :=
  match filename with
  | Some f =>
      if negb (String.eqb f EmptyString) && JS.endsWith f ".md" then
        (invalidate cache, [LogFileChange f eventType; LogCacheInvalidated])
      else (cache, [])
  | None => (cache, [])
  end.

(** A sequence of watcher events, oldest first. *)
Fixpoint onWatchEvents (events : list (string * option string)) (cache : Cache)
    : Cache :=
  match events with
  | [] => cache
  | (eventType, filename) :: rest =>
      onWatchEvents rest (fst (onWatchEvent eventType filename cache))
  end.

(** A watcher event that names a file ending in [.md]. *)
Definition mdEvent (event : string * option string) : bool :=
  match snd event with
  | Some f => JS.endsWith f ".md"
  | None => false
  end.

(** How many times one console output announces a rescan. *)
Definition rescans (out : list Console) : nat :=
  List.length (filter (fun l => match l with LogRescanning => true | _ => false end) out).

(* ================================================================== *)
(** ** The query surface *)
(* ================================================================== *)

(** [getAvailableRuleTypes()] (lines 219-222). *)
Definition getAvailableRuleTypes (rulesDir : RulesDir) (now : Z) (cache : Cache)
    : list string * Cache * list Console :=
  let '(rules, cache', out) := getCachedProjectRules rulesDir now cache in
  (keys rules ++ ["ALL"], cache', out).

(** What the tool handler does: it returns [{ content: [{ type: 'text',
    text }] }] or throws an [Error] with a message. *)
Inductive Response : Type :=
| Content (text : Value)
| Throw (message : string).

(** [`## ${key}\n\n${value}`] *)
Definition section (entry : string * string) : string :=
  "## " ++ fst entry ++ JS.LF ++ JS.LF ++ snd entry.

(** ['\n\n---\n\n'] *)
Definition delimiter : string := JS.LF ++ JS.LF ++ "---" ++ JS.LF ++ JS.LF.

(** The branches on [ruleType] (lines 261-283), on the rules read from the
    cache. *)
Definition ruleResponse (rules : Rules) (ruleType : string) : Response :=
  if String.eqb ruleType "ALL" then
    Content (Str (JS.join delimiter (map section rules)))
  else if truthy (getProp rules ruleType) then
    Content (getProp rules ruleType)
  else Throw ("Unknown rule type: " ++ ruleType).

(** The request parameters: the tool [name], and [arguments.rule_type]
    when [arguments] is an object that has it. *)
Record CallToolRequest : Type := mkRequest {
  name : string;
  rule_type : option string
}.

(** The [CallToolRequestSchema] handler (lines 250-287). *)
Definition callTool (rulesDir : RulesDir) (now : Z) (cache : Cache)
    (request : CallToolRequest) : Response * Cache * list Console :=
  if String.eqb (name request) "get_project_rules" then
    match rule_type request with
    | None => (Throw "rule_type argument is required", cache, [])
    | Some ruleType =>
        let '(rules, cache', out) := getCachedProjectRules rulesDir now cache in
        (ruleResponse rules ruleType, cache', out)
    end
  else (Throw ("Unknown tool: " ++ name request), cache, []).

(** [get(key)] of the specification: the tool call for one rule type. *)
Definition get (rulesDir : RulesDir) (now : Z) (cache : Cache) (key : string)
    : Response :=
  fst (fst (callTool rulesDir now cache (mkRequest "get_project_rules" (Some key)))).

(** The error the specification calls [UnknownKey]. *)
Definition UnknownKey (key : string) : Response :=
  Throw ("Unknown rule type: " ++ key).

(** The cache states the process can be in: the initial one, and what a
    read (at any time, on any state of the file system) or an invalidation
    leaves. *)
Inductive reachable : Cache -> Prop :=
| reachable_initial : reachable initialCache
| reachable_read rulesDir now cache :
    reachable cache ->
    reachable (snd (fst (getCachedProjectRules rulesDir now cache)))
| reachable_invalidate cache :
    reachable cache -> reachable (invalidate cache).

(* ================================================================== *)
(** ** Notions of the specification *)
(* ================================================================== *)

(** The characters of the pattern [[A-Z0-9_-]]. *)
Definition keyChar (c : ascii) : bool :=
  let n := nat_of_ascii c in
  ((65 <=? n)%nat && (n <=? 90)%nat)
  || ((48 <=? n)%nat && (n <=? 57)%nat)
  || Nat.eqb n 95 || Nat.eqb n 45.

Fixpoint allChars (p : ascii -> bool) (s : string) : bool :=
  match s with
  | EmptyString => true
  | String c s' => p c && allChars p s'
  end.

(** A non-empty string matching [^[A-Z0-9_-]+$]. *)
Definition validKey (k : string) : bool :=
  negb (String.eqb k EmptyString) && allChars keyChar k.

(** The characters whose upper case is in [[A-Z0-9_-]]: ASCII letters,
    digits, underscore and hyphen. *)
Definition plainChar (c : ascii) : bool :=
  let n := nat_of_ascii c in
  ((97 <=? n)%nat && (n <=? 122)%nat) || keyChar c.

(** The file name without its last three code units (the extension of a
    name that ends in [.md]). *)
Definition stem (file : string) : string :=
  substring 0 (String.length file - 3) file.

(** The key derivation as the specification words it: the name without its
    extension is compared with the overview name without regard to case. *)
Definition derive_spec (group file : string) : string :=
  if String.eqb (JS.toUpperCase (stem file)) "README"
  then JS.toUpperCase group ++ "-OVERVIEW"
  else JS.toUpperCase group ++ "-" ++ JS.toUpperCase (stem file).

(** One tool directory whose names are plain: the directory name, and the
    stem of each file the scanner accepts. *)
Definition plainEntry (entry : Dirent) : bool :=
  match entry with
  | PlainFile _ => true
  | Directory name None => allChars plainChar name
  | Directory name (Some toolFiles) =>
      allChars plainChar name
      && forallb (fun f => if JS.endsWith (fst f) ".md"
                           then allChars plainChar (stem (fst f)) else true)
                 toolFiles
  end.

Definition plainNames (rulesDir : RulesDir) : bool :=
  match rulesDir with
  | Root entries => forallb plainEntry entries
  | _ => true
  end.

(** Every accepted file of the listing can be read. *)
Definition readable (toolFiles : list ToolFile) : bool :=
  forallb (fun f => if JS.endsWith (fst f) ".md"
                    then match snd f with Some _ => true | None => false end
                    else true) toolFiles.

(** A tool directory in which enumerating or reading fails. *)
Definition groupFails (entry : Dirent) : bool :=
  match entry with
  | PlainFile _ => false
  | Directory _ None => true
  | Directory _ (Some toolFiles) => negb (readable toolFiles)
  end.

(** What holds of every snapshot: no key twice, and a hyphen in each. *)
Definition snapshotOk (rules : Rules) : Prop :=
  NoDup (keys rules)
  /\ Forall (fun k => JS.includes k "-" = true) (keys rules).

(** The keys of a tool directory all satisfy [P]. *)
Definition derivesOnly (P : string -> Prop) (entry : Dirent) : Prop :=
  match entry with
  | Directory name (Some toolFiles) =>
      forall file read, In (file, read) toolFiles ->
        JS.endsWith file ".md" = true -> P (ruleKey (JS.toUpperCase name) file)
  | _ => True
  end.

(** The console lines of the scanner. *)
Definition scannerLine (l : Console) : bool :=
  match l with
  | ErrRulesDirNotFound | ErrReadingToolDir _ | ErrReadingRulesFiles => true
  | _ => false
  end.

(** Repositories used as examples: one rule; the scenario of the
    specification; an empty rules directory. *)
Definition oneRuleRepo : RulesDir :=
  Root [Directory "general" (Some [("RULES.md", Some "# Rules")])].

Definition scenarioRepo : RulesDir :=
  Root [Directory "general"
          (Some [("README.md", Some "# Overview"); ("RULES.md", Some "# Rules")])].

Definition emptyRepo : RulesDir := Root [].

(** A file name with a space; a tool directory whose second file cannot
    be read. *)
Definition spacedRepo : RulesDir :=
  Root [Directory "g" (Some [("a b.md", Some "# Spaced")])].

(** A document without content next to one with content. *)
Definition emptyDocRepo : RulesDir :=
  Root [Directory "general"
          (Some [("RULES.md", Some "# Rules"); ("EMPTY.md", Some EmptyString)])].

Definition halfReadGroup : Dirent :=
  Directory "g" (Some [("A.md", Some "# A"); ("B.md", None)]).

(* ================================================================== *)
(** ** Descriptions of a scan *)
(* ================================================================== *)

(** The assignments [rules[key] = content] that the scan of one listing
    executes, in order: one per accepted file, up to the first one that
    cannot be read. *)
Fixpoint fileAssignments (toolName : string) (toolFiles : list ToolFile)
    : list (string * string) :=
  match toolFiles with
  | [] => []
  | (file, read) :: rest =>
      if JS.endsWith file ".md" then
        match read with
        | None => []
        | Some content =>
            (ruleKey toolName file, content) :: fileAssignments toolName rest
        end
      else fileAssignments toolName rest
  end.

Definition entryAssignments (entry : Dirent) : list (string * string) :=
  match entry with
  | Directory name (Some toolFiles) =>
      fileAssignments (JS.toUpperCase name) toolFiles
  | _ => []
  end.

(** All the assignments of one scan, in the order of the scan. *)
Definition assignments (rulesDir : RulesDir) : list (string * string) :=
  match rulesDir with
  | Root entries => flat_map entryAssignments entries
  | _ => []
  end.

(** The content most recently assigned to [key], if any. *)
Definition lastAssigned (key : string) (writes : list (string * string))
    : option string :=
  fold_left (fun found kv => if String.eqb (fst kv) key then Some (snd kv)
                             else found)
            writes None.

(** The keys of [ks] that are not in [seen], each once, in the order of
    their first occurrence. *)
Fixpoint firstSeen (seen ks : list string) : list string :=
  match ks with
  | [] => []
  | k :: rest =>
      if existsb (String.eqb k) seen then firstSeen seen rest
      else k :: firstSeen (seen ++ [k]) rest
  end.

(** A listing without the names the scanner does not accept. *)
Definition markdownOnly (toolFiles : list ToolFile) : list ToolFile :=
  filter (fun f => JS.endsWith (fst f) ".md") toolFiles.

(** The rules directory without what the scanner passes over: the entries
    that are not directories, and in each listing the names that do not end
    in [.md]. *)
Definition prune (entries : list Dirent) : list Dirent :=
  flat_map (fun entry =>
              match entry with
              | PlainFile _ => []
              | Directory name listing =>
                  [Directory name (option_map markdownOnly listing)]
              end) entries.

(** Successive reads, each at its own time and on its own state of the
    file system; the mappings they return, and the cache they leave. *)
Fixpoint readAll (reads : list (RulesDir * Z)) (cache : Cache)
    : list Rules * Cache :=
  match reads with
  | [] => ([], cache)
  | (rulesDir, now) :: rest =>
      let '(rules, cache1, _) := getCachedProjectRules rulesDir now cache in
      let (served, cache2) := readAll rest cache1 in
      (rules :: served, cache2)
  end.

(* ================================================================== *)
(** ** The command line: [parseArguments] *)
(* ================================================================== *)

(** How a computation that may call [process.exit] ends. *)
Inductive Outcome (A : Type) : Type :=
| Done (a : A)
| Exit (code : Z).

Arguments Done {A} a.
Arguments Exit {A} code.

Module Cli.

(** The [options] object (lines 16-21). *)
Record Options : Type := mkOptions {
  watch : bool;
  keyboard : bool;
  help : bool;
  rulesDir : string
}.

(** The initial [options]: [process.env.MCP_RULES_DIR || './rules'] is the
    variable when it is set and not empty. *)
Definition defaults (env : option string) : Options :=
  mkOptions false false false
    (match env with
     | Some dir => if String.eqb dir EmptyString then "./rules" else dir
     | None => "./rules"
     end).

Definition isWatchFlag (arg : string) : bool :=
  String.eqb arg "--watch" || String.eqb arg "-w".

Definition isKeyboardFlag (arg : string) : bool :=
  String.eqb arg "--keyboard" || String.eqb arg "-k".

Definition isHelpFlag (arg : string) : bool :=
  String.eqb arg "--help" || String.eqb arg "-h".

Definition isRulesDirFlag (arg : string) : bool :=
  String.eqb arg "--rules-dir" || String.eqb arg "-r".

(** [nextArg && !nextArg.startsWith('-')] (line 42). *)
Definition isValue (nextArg : string) : bool :=
  negb (String.eqb nextArg EmptyString) && negb (JS.startsWith nextArg "-").

(** The [for] loop over [args] (lines 23-55), from the argument at hand.
    After [--rules-dir] the next argument is taken as the path and passed
    over; without a path the process exits with code 1. *)
Fixpoint parseFrom (args : list string) (options : Options) : Outcome Options :=
  match args with
  | [] => Done options
  | arg :: rest =>
      if isWatchFlag arg then
        parseFrom rest (mkOptions true (keyboard options) (help options)
                                  (rulesDir options))
      else if isKeyboardFlag arg then
        parseFrom rest (mkOptions (watch options) true (help options)
                                  (rulesDir options))
      else if isHelpFlag arg then
        parseFrom rest (mkOptions (watch options) (keyboard options) true
                                  (rulesDir options))
      else if isRulesDirFlag arg then
        match rest with
        | nextArg :: rest' =>
            if isValue nextArg then
              parseFrom rest' (mkOptions (watch options) (keyboard options)
                                         (help options) nextArg)
            else Exit 1
        | [] => Exit 1
        end
      else parseFrom rest options
  end.

(** [parseArguments()] (lines 14-58) on [process.argv] and the value of
    [MCP_RULES_DIR]. *)
Definition parseArguments (argv : list string) (env : option string)
    : Outcome Options :=
  parseFrom (skipn 2 argv) (defaults env).

(** [options.rulesDir || join(currentDir, '..', 'rules')] (lines 101 and
    171), with the joined path as [fallback]. *)
Definition effectiveRulesDir (options : Options) (fallback : string) : string :=
  if String.eqb (rulesDir options) EmptyString then fallback
  else rulesDir options.

(** Some [--rules-dir] or [-r] is the last argument or is followed by an
    argument that cannot be a path. *)
Fixpoint flagWithoutValue (args : list string) : bool :=
  match args with
  | [] => false
  | arg :: rest =>
      (isRulesDirFlag arg
       && negb (match rest with
                | nextArg :: _ => isValue nextArg
                | [] => false
                end))
      || flagWithoutValue rest
  end.

(** The path after the last [--rules-dir] or [-r], else [current]. *)
Fixpoint lastRulesDir (args : list string) (current : string) : string :=
  match args with
  | [] => current
  | arg :: rest =>
      lastRulesDir rest
        (if isRulesDirFlag arg then
           match rest with
           | nextArg :: _ => if isValue nextArg then nextArg else current
           | [] => current
           end
         else current)
  end.

End Cli.

(* ================================================================== *)
(** ** The process: start, watcher and keyboard *)
(* ================================================================== *)

Module Text.

(** ASCII white space and line terminators, which [trim] removes: tab,
    line feed, vertical tab, form feed, carriage return, space. *)
Definition isWhiteSpace (c : ascii) : bool :=
  let n := nat_of_ascii c in
  ((9 <=? n)%nat && (n <=? 13)%nat) || Nat.eqb n 32.

Fixpoint trimStart (s : string) : string :=
  match s with
  | EmptyString => EmptyString
  | String c s' => if isWhiteSpace c then trimStart s' else s
  end.

Fixpoint trimEnd (s : string) : string :=
  match s with
  | EmptyString => EmptyString
  | String c s' =>
      match trimEnd s' with
      | EmptyString => if isWhiteSpace c then EmptyString
                       else String c EmptyString
      | rest => String c rest
      end
  end.

(** [s.trim()] on strings of ASCII code units. The real [trim] also
    removes white space outside ASCII (U+00A0, U+FEFF, U+2028, U+2029, the
    space separators); a statement about lines that are not keys is about
    ASCII lines. *)
Definition trim (s : string) : string := trimEnd (trimStart s).

(** A code unit of the ASCII range. *)
Definition isAscii (c : ascii) : bool := (nat_of_ascii c <? 128)%nat.

(** One code unit of [toLowerCase]: [A]..[Z] (65..90) gain 32. *)
Definition lowerChar (c : ascii) : ascii :=
  let n := nat_of_ascii c in
  if (65 <=? n)%nat && (n <=? 90)%nat then ascii_of_nat (n + 32) else c.

Fixpoint toLowerCase (s : string) : string :=
  match s with
  | EmptyString => EmptyString
  | String c s' => String (lowerChar c) (toLowerCase s')
  end.

End Text.

(** The mutable state of the process: the cache, every [FSWatcher] that
    [watch] has returned so far (oldest first, with whether it is still
    open), the one [globalWatcher] refers to (by its position; [None] for
    [undefined]), and how many listeners [process.on] has added. *)
Record Server : Type := mkServer {
  srvCache : Cache;
  watchers : list bool;
  globalWatcher : option nat;
  processListeners : nat
}.

(** [watcher.close()] on the watcher at position [i]. *)
Fixpoint closeAt (i : nat) (ws : list bool) : list bool :=
  match ws with
  | [] => []
  | w :: rest =>
      match i with
      | O => false :: rest
      | S i' => w :: closeAt i' rest
      end
  end.

(** [setupFileWatcher()] (lines 169-216), with what [existsSync(rulesDir)]
    answers: without the directory nothing changes; with it a new watcher
    is opened and stored in [globalWatcher], and three listeners ([exit],
    [SIGINT], [SIGTERM]) are added to the process. *)
Definition setupFileWatcher (dirExists : bool) (srv : Server) : Server :=
  if dirExists then
    mkServer (srvCache srv) (watchers srv ++ [true])
             (Some (List.length (watchers srv)))
             (processListeners srv + 3)
  else srv.

(** A change in the rules directory: every open watcher runs its
    callback. *)
Fixpoint deliver (ws : list bool) (eventType : string)
    (filename : option string) (cache : Cache) : Cache :=
  match ws with
  | [] => cache
  | true :: rest =>
      deliver rest eventType filename
              (fst (onWatchEvent eventType filename cache))
  | false :: rest => deliver rest eventType filename cache
  end.

Definition fileEvent (eventType : string) (filename : option string)
    (srv : Server) : Server :=
  mkServer (deliver (watchers srv) eventType filename (srvCache srv))
           (watchers srv) (globalWatcher srv) (processListeners srv).

(** The listener of the [line] event (lines 302-333). [q] ends the
    process with code 0. [r] closes the watcher [globalWatcher] refers to,
    empties the cache, and sets up a watcher again when [globalWatcher] is
    set. Every other line is passed over. *)
Definition onLine (dirExists : bool) (input : string) (srv : Server)
    : Outcome Server :=
  let key := Text.toLowerCase (Text.trim input) in
  if String.eqb key "q" then Exit 0
  else if String.eqb key "r" then
    let closed :=
      match globalWatcher srv with
      | Some w => closeAt w (watchers srv)
      | None => watchers srv
      end in
    let cleared :=
      mkServer (invalidate (srvCache srv)) closed (globalWatcher srv)
               (processListeners srv) in
    Done (match globalWatcher srv with
          | Some _ => setupFileWatcher dirExists cleared
          | None => cleared
          end)
  else Done srv.

(** The top level of the module (lines 355-384): the command line is
    parsed; [--help] prints the usage and ends the process with code 0;
    otherwise the watcher is set up when [--watch] is given, and the
    keyboard interface, with its listeners for [SIGINT] and [SIGTERM],
    when [--keyboard] is given. *)
Definition startProcess (argv : list string) (env : option string)
    (dirExists : bool) : Outcome Server :=
  match Cli.parseArguments argv env with
  | Exit code => Exit code
  | Done options =>
      if Cli.help options then Exit 0
      else
        let fresh := mkServer initialCache [] None 0 in
        let watching :=
          if Cli.watch options then setupFileWatcher dirExists fresh
          else fresh in
        Done (if Cli.keyboard options
              then mkServer (srvCache watching) (watchers watching)
                            (globalWatcher watching)
                            (processListeners watching + 2)
              else watching)
  end.

(** A tool call or a listing reads the cache. *)
Definition readCache (rulesDir : RulesDir) (now : Z) (srv : Server) : Server :=
  mkServer (snd (fst (getCachedProjectRules rulesDir now (srvCache srv))))
           (watchers srv) (globalWatcher srv) (processListeners srv).

(** The states of a running process. *)
Inductive running : Server -> Prop :=
| running_start argv env dirExists srv :
    startProcess argv env dirExists = Done srv -> running srv
| running_line dirExists input srv srv' :
    running srv -> onLine dirExists input srv = Done srv' -> running srv'
| running_event eventType filename srv :
    running srv -> running (fileEvent eventType filename srv)
| running_read rulesDir now srv :
    running srv -> running (readCache rulesDir now srv).

(** How many watchers are open. *)
Definition openWatchers (srv : Server) : nat :=
  List.length (filter (fun w => w) (watchers srv)).

(* ================================================================== *)
(** ** The copy of the scanner in the test suite *)
(* ================================================================== *)

Module ScanTest.

(** What the copy throws. Each is wrapped as [Error reading rules files:
    ...] by the outer [catch]. *)
Inductive Failure : Type :=
| RulesDirectoryNotFound
| RulesDirectoryUnreadable
| ToolDirectoryError (name : string).

(** The body of [entries.forEach] (dynamic-scan.test.ts lines 28-55): the
    [catch] around a tool directory throws again, which leaves the
    loop. *)
Fixpoint scanEntries (entries : list Dirent) (rules : Rules)
    : Rules + Failure :=
  match entries with
  | [] => inl rules
  | PlainFile _ :: rest => scanEntries rest rules
  | Directory name None :: _ => inr (ToolDirectoryError name)
  | Directory name (Some toolFiles) :: rest =>
      match scanFiles (JS.toUpperCase name) toolFiles rules with
      | (rules', Normal) => scanEntries rest rules'
      | (_, Thrown) => inr (ToolDirectoryError name)
      end
  end.

(** [getProjectRules(rulesDir)] of the test suite (lines 16-61). *)
Definition getProjectRules (rulesDir : RulesDir) : Rules + Failure :=
  match rulesDir with
  | RootMissing => inr RulesDirectoryNotFound
  | RootUnreadable => inr RulesDirectoryUnreadable
  | Root entries => scanEntries entries []
  end.

(** The console line with which [index.ts] reports the same failure. *)
Definition reported (failure : Failure) : Console :=
  match failure with
  | RulesDirectoryNotFound => ErrRulesDirNotFound
  | RulesDirectoryUnreadable => ErrReadingRulesFiles
  | ToolDirectoryError name => ErrReadingToolDir name
  end.

End ScanTest.

(* ================================================================== *)
(** ** The version check of [scripts/validate-version.js] *)
(* ================================================================== *)

Module Version.

Definition isDigit (c : ascii) : bool :=
  let n := nat_of_ascii c in (48 <=? n)%nat && (n <=? 57)%nat.

(** The class [[a-zA-Z0-9.-]]. *)
Definition isIdentChar (c : ascii) : bool :=
  let n := nat_of_ascii c in
  isDigit c
  || ((97 <=? n)%nat && (n <=? 122)%nat)
  || ((65 <=? n)%nat && (n <=? 90)%nat)
  || Nat.eqb n 46 || Nat.eqb n 45.

Fixpoint dropWhile (p : ascii -> bool) (s : string) : string :=
  match s with
  | EmptyString => EmptyString
  | String c s' => if p c then dropWhile p s' else s
  end.

(** One or more characters of a class at the head of [s]: what follows
    them, or [None] when [s] does not start with one. The classes of the
    pattern are followed by characters outside them, so the longest run is
    the only one that can match. *)
Definition some (p : ascii -> bool) (s : string) : option string :=
  match s with
  | EmptyString => None
  | String c _ => if p c then Some (dropWhile p s) else None
  end.

(** [\.] *)
Definition dot (s : string) : option string :=
  match s with
  | String c rest => if Ascii.eqb c "." then Some rest else None
  | EmptyString => None
  end.

(** [(\+[a-zA-Z0-9.-]+)?$] *)
Definition buildAndEnd (s : string) : bool :=
  match s with
  | EmptyString => true
  | String c rest =>
      if Ascii.eqb c "+" then
        match some isIdentChar rest with
        | Some EmptyString => true
        | _ => false
        end
      else false
  end.

(** [(-[a-zA-Z0-9.-]+)?(\+[a-zA-Z0-9.-]+)?$] *)
Definition suffixAndEnd (s : string) : bool :=
  match s with
  | String c rest =>
      if Ascii.eqb c "-" then
        match some isIdentChar rest with
        | Some after => buildAndEnd after
        | None => false
        end
      else buildAndEnd s
  | EmptyString => true
  end.

(** [validateVersionFormat(version)] (lines 44-48): the test of
    [/^[0-9]+\.[0-9]+\.[0-9]+(-[a-zA-Z0-9.-]+)?(\+[a-zA-Z0-9.-]+)?$/]. *)
Definition validateVersionFormat (version : string) : bool :=
  match some isDigit version with
  | Some r1 =>
      match dot r1 with
      | Some r2 =>
          match some isDigit r2 with
          | Some r3 =>
              match dot r3 with
              | Some r4 =>
                  match some isDigit r4 with
                  | Some r5 => suffixAndEnd r5
                  | None => false
                  end
              | None => false
              end
          | None => false
          end
      | None => false
      end
  | None => false
  end.

(** [version.split('.')]. *)
Fixpoint splitDot (s : string) : list string :=
  match s with
  | EmptyString => [EmptyString]
  | String c s' =>
      if Ascii.eqb c "." then EmptyString :: splitDot s'
      else match splitDot s' with
           | segment :: rest => String c segment :: rest
           | [] => [String c EmptyString]
           end
  end.

(** The numbers that occur: integers that a double holds exactly, and
    [NaN]. *)
Inductive Num : Type :=
| Finite (z : Z)
| NaN.

Fixpoint digitsValue (acc : Z) (s : string) : Z :=
  match s with
  | EmptyString => acc
  | String c s' =>
      digitsValue (10 * acc + Z.of_nat (nat_of_ascii c - 48)) s'
  end.

(** [Number(s)] where its value is exact: a string of at most 15 decimal
    digits is the integer it writes, the empty string being 0; digits
    followed by [-] or [+] are no numeric literal, hence [NaN]. [None]
    for every other string: longer digit strings are rounded, and
    exponents, hexadecimal literals and [Infinity] are not modelled. *)
Definition Number (s : string) : option Num :=
  if allChars isDigit s then
    if (String.length s <=? 15)%nat then Some (Finite (digitsValue 0 s))
    else None
  else
    match some isDigit s with
    | Some (String c _) =>
        if Ascii.eqb c "-" || Ascii.eqb c "+" then Some NaN else None
    | _ => None
    end.

(** [version.split('.').map(Number)]. *)
Fixpoint numbers (segments : list string) : option (list Num) :=
  match segments with
  | [] => Some []
  | segment :: rest =>
      match Number segment, numbers rest with
      | Some n, Some ns => Some (n :: ns)
      | _, _ => None
      end
  end.

(** [parts[i] || 0]: a missing part, [NaN] and 0 give 0. *)
Definition partOrZero (parts : list Num) (i : nat) : Z :=
  match nth_error parts i with
  | Some (Finite z) => z
  | _ => 0%Z
  end.

(** The [for] loop of [compareVersions] (lines 55-63) from index [i], with
    the number of iterations that are left. *)
Fixpoint compareFrom (v1Parts v2Parts : list Num) (i remaining : nat) : Z :=
  match remaining with
  | O => 0%Z
  | S remaining' =>
      let v1 := partOrZero v1Parts i in
      let v2 := partOrZero v2Parts i in
      if (v1 <? v2)%Z then (-1)%Z
      else if (v2 <? v1)%Z then 1%Z
      else compareFrom v1Parts v2Parts (S i) remaining'
  end.

(** [compareVersions(version1, version2)] (lines 51-64); [None] when a
    segment is outside the strings on which [Number] is modelled. *)
Definition compareVersions (version1 version2 : string) : option Z :=
  match numbers (splitDot version1), numbers (splitDot version2) with
  | Some v1Parts, Some v2Parts =>
      Some (compareFrom v1Parts v2Parts 0
              (Nat.max (List.length v1Parts) (List.length v2Parts)))
  | _, _ => None
  end.

(** [tagName.replace(/^v/, '')] (line 22). *)
Definition cleanVersion (tagName : string) : string :=
  match tagName with
  | String c rest => if Ascii.eqb c "v" then rest else tagName
  | EmptyString => tagName
  end.

(** What [main] announces when it lets the tag be created. *)
Inductive Verdict : Type := VersionMatch | VersionUpgrade.

(** [main()] (lines 67-113) on [process.argv] and the [version] string of
    [package.json] ([None] when the file cannot be read or parsed, for
    which [getPackageVersion] ends the process). The result is [None] when
    [compareVersions] is outside the model. *)
Definition main (argv : list string) (packageVersion : option string)
    : option (Outcome Verdict) :=
  match nth_error argv 2 with
  | None => Some (Exit 1)
  | Some tagName =>
      if String.eqb tagName EmptyString then Some (Exit 1)
      else
        match packageVersion with
        | None => Some (Exit 1)
        | Some version =>
            if negb (validateVersionFormat (cleanVersion tagName))
            then Some (Exit 1)
            else
              match compareVersions (cleanVersion tagName) version with
              | None => None
              | Some comparison =>
                  Some (if (comparison <? 0)%Z then Exit 1
                        else if (comparison =? 0)%Z then Done VersionMatch
                        else Done VersionUpgrade)
              end
        end
  end.

(** A non-empty string of at most 15 decimal digits. *)
Definition isPart (s : string) : bool :=
  negb (String.eqb s EmptyString) && allChars isDigit s
  && (String.length s <=? 15)%nat.

(** A non-empty pre-release identifier without a dot. *)
Definition isPreRelease (s : string) : bool :=
  negb (String.eqb s EmptyString)
  && allChars (fun c => isIdentChar c && negb (Ascii.eqb c ".")) s.

(** A character other than the dot. *)
Definition noDot (c : ascii) : bool := negb (Ascii.eqb c ".").

(** The value of a part under [|| 0]. *)
Definition third (n : Num) : Z :=
  match n with Finite z => z | NaN => 0%Z end.

(** The order of [major.minor.patch] triples. *)
Definition compareTriples (a b c a' b' c' : Z) : comparison :=
  match (a ?= a')%Z with
  | Eq => match (b ?= b')%Z with
          | Eq => (c ?= c')%Z
          | r => r
          end
  | r => r
  end.

End Version.

(* ================================================================== *)
(** ** Occurrences in a text *)
(* ================================================================== *)







(* ================================================================== *)
(** ** Strings *)
(* ================================================================== *)

Section StringFacts.

Open Scope string_scope.

Lemma length_append (a b : string) :
  String.length (a ++ b) = String.length a + String.length b.
Proof. induction a as [|x a IH]; simpl; [reflexivity | now rewrite IH]. Qed.

Lemma substring_all (s : string) : substring 0 (String.length s) s = s.
Proof. induction s as [|c s IH]; simpl; [reflexivity | now rewrite IH]. Qed.

(** A string is its first [k] code units followed by the others. *)
Lemma substring_split (s : string) : forall k,
  k <= String.length s ->
  s = substring 0 k s ++ substring k (String.length s - k) s.
Proof.
  induction s as [|c s IH]; intros k Hk.
  - destruct k; reflexivity.
  - destruct k as [|k]; simpl.
    + now rewrite substring_all.
    + simpl in Hk. f_equal. apply IH. lia.
Qed.

Lemma toUpperCase_append (a b : string) :
  JS.toUpperCase (a ++ b) = JS.toUpperCase a ++ JS.toUpperCase b.
Proof. induction a as [|x a IH]; simpl; [reflexivity | now rewrite IH]. Qed.

Lemma allChars_append (p : ascii -> bool) (a b : string) :
  allChars p (a ++ b) = allChars p a && allChars p b.
Proof.
  induction a as [|x a IH]; simpl; [reflexivity|].
  now rewrite IH, andb_assoc.
Qed.

(** Upper-casing a letter, a digit, [_] or [-] gives a character of
    [[A-Z0-9_-]]. *)
Lemma upperChar_plain (c : ascii) :
  plainChar c = true -> keyChar (JS.upperChar c) = true.
Proof.
  destruct c as [[] [] [] [] [] [] [] []]; vm_compute; intro H;
    first [reflexivity | discriminate H].
Qed.

Lemma toUpperCase_plain (s : string) :
  allChars plainChar s = true -> allChars keyChar (JS.toUpperCase s) = true.
Proof.
  induction s as [|c s IH]; simpl; [reflexivity|].
  intro H. apply andb_true_iff in H as [Hc Hs].
  now rewrite (upperChar_plain c Hc), IH.
Qed.

(** A name accepted by [endsWith('.md')] is its stem followed by [.md]. *)
Lemma endsWith_md_stem (file : string) :
  JS.endsWith file ".md" = true -> file = stem file ++ ".md".
Proof.
  unfold JS.endsWith, stem. simpl String.length.
  destruct (Nat.ltb_spec (String.length file) 3) as [|Hlen]; [discriminate|].
  intro H. apply String.eqb_eq in H.
  rewrite (substring_split file (String.length file - 3)) at 1 by lia.
  replace (String.length file - (String.length file - 3)) with 3 by lia.
  now rewrite H.
Qed.

Lemma endsWith_append_md (s : string) : JS.endsWith (s ++ ".md") ".md" = true.
Proof.
  unfold JS.endsWith. rewrite length_append. simpl String.length.
  destruct (Nat.ltb_spec (String.length s + 3) 3) as [|_]; [lia|].
  replace (String.length s + 3 - 3) with (String.length s) by lia.
  apply String.eqb_eq.
  induction s as [|c s IH]; simpl; [reflexivity | exact IH].
Qed.

(** When [.md] does not occur in the stem, its first occurrence in the
    name is the extension, and [replace] removes exactly that. *)
Lemma startsWith_md_extension (c : ascii) (s : string) :
  JS.startsWith (String c s) ".md" = false ->
  JS.startsWith (String c (s ++ ".md")) ".md" = false.
Proof.
  cbn [JS.startsWith append].
  destruct (Ascii.eqb "." c); [|reflexivity].
  destruct s as [|c1 [|c2 s2]]; cbn [JS.startsWith append andb].
  - reflexivity.
  - destruct (Ascii.eqb "m" c1); reflexivity.
  - intro H. exact H.
Qed.

Lemma replace_md_stem (s : string) :
  JS.includes s ".md" = false ->
  JS.replace ".md" EmptyString (s ++ ".md") = s.
Proof.
  induction s as [|c s IH]; [reflexivity|].
  intro H. cbn [JS.includes] in H.
  destruct (JS.startsWith (String c s) ".md") eqn:Hp; [discriminate|].
  cbn [JS.replace append].
  rewrite (startsWith_md_extension c s Hp).
  f_equal. apply IH. exact H.
Qed.

(** A plain string holds no [.], so [.md] does not occur in it. *)
Lemma plain_excludes_md (s : string) :
  allChars plainChar s = true -> JS.includes s ".md" = false.
Proof.
  induction s as [|c s IH]; [reflexivity|].
  intro H. cbn [allChars] in H. apply andb_true_iff in H as [Hc Hs].
  cbn [JS.includes].
  replace (JS.startsWith (String c s) ".md") with false; [now apply IH|].
  cbn [JS.startsWith].
  destruct (Ascii.eqb_spec "." c) as [<-|]; [discriminate Hc | reflexivity].
Qed.

Lemma includes_dash_append (a b : string) :
  JS.includes (a ++ "-" ++ b) "-" = true.
Proof.
  induction a as [|c a IH]; cbn [append JS.includes].
  - reflexivity.
  - destruct (JS.startsWith (String c (a ++ String "-" b)) "-");
      [reflexivity | exact IH].
Qed.

End StringFacts.

(* ================================================================== *)
(** ** Objects *)
(* ================================================================== *)

Section ObjectFacts.

Lemma setProp_keys_In (key content : string) (rules : Rules) (x : string) :
  In x (keys (setProp key content rules)) <-> x = key \/ In x (keys rules).
Proof.
  induction rules as [|[k v] rest IH]; simpl.
  - intuition congruence.
  - destruct (String.eqb_spec k key) as [->|Hne]; simpl.
    + intuition congruence.
    + unfold keys in IH. rewrite IH. intuition congruence.
Qed.

(** Assigning a property never duplicates a key. *)
Lemma setProp_NoDup (key content : string) (rules : Rules) :
  NoDup (keys rules) -> NoDup (keys (setProp key content rules)).
Proof.
  induction rules as [|[k v] rest IH]; simpl; intro H.
  - constructor; [intros [] | constructor].
  - inversion H as [|? ? Hnotin Hrest]; subst.
    destruct (String.eqb_spec k key) as [->|Hne]; simpl.
    + now constructor.
    + constructor; [|now apply IH].
      intro Hin. apply (setProp_keys_In key content rest k) in Hin.
      destruct Hin as [->|Hin]; [now apply Hne | now apply Hnotin].
Qed.

Lemma setProp_Forall (P : string -> Prop) (key content : string) (rules : Rules) :
  P key -> Forall P (keys rules) -> Forall P (keys (setProp key content rules)).
Proof.
  intros Hk H. apply Forall_forall. intros x Hx.
  apply setProp_keys_In in Hx. destruct Hx as [->|Hx]; [exact Hk|].
  revert x Hx. now apply Forall_forall.
Qed.

Lemma ownProp_None (key : string) (rules : Rules) :
  ownProp key rules = None <-> ~ In key (keys rules).
Proof.
  induction rules as [|[k v] rest IH]; simpl.
  - intuition.
  - destruct (String.eqb_spec k key) as [->|Hne].
    + split; [discriminate | intro H; exfalso; apply H; now left].
    + unfold keys in IH. rewrite IH. intuition.
Qed.

Lemma ownProp_Some_In (key content : string) (rules : Rules) :
  ownProp key rules = Some content -> In key (keys rules).
Proof.
  intro H. destruct (in_dec string_dec key (keys rules)) as [|Hn]; [assumption|].
  apply ownProp_None in Hn. congruence.
Qed.

(** With distinct keys, every entry is what a property read finds. *)
Lemma ownProp_In (key content : string) (rules : Rules) :
  NoDup (keys rules) -> In (key, content) rules -> ownProp key rules = Some content.
Proof.
  induction rules as [|[k v] rest IH]; simpl; intros Hnd Hin; [contradiction|].
  inversion Hnd as [|? ? Hnotin Hrest]; subst.
  destruct Hin as [Heq|Hin].
  - inversion Heq; subst. now rewrite String.eqb_refl.
  - destruct (String.eqb_spec k key) as [->|Hne].
    + exfalso. apply Hnotin. now apply (in_map fst) in Hin.
    + now apply IH.
Qed.

End ObjectFacts.

(* ================================================================== *)
(** ** The scanner *)
(* ================================================================== *)

Section ScannerFacts.

(** Every key the scanner derives has the tool name, then a hyphen. *)
Lemma ruleKey_dash (toolName file : string) :
  JS.includes (ruleKey toolName file) "-" = true.
Proof.
  unfold ruleKey. destruct (String.eqb file "README.md").
  - apply (includes_dash_append toolName "OVERVIEW").
  - apply includes_dash_append.
Qed.

Variable P : string -> Prop.

Lemma scanFiles_Forall (toolName : string) (toolFiles : list ToolFile) :
  (forall file read, In (file, read) toolFiles ->
     JS.endsWith file ".md" = true -> P (ruleKey toolName file)) ->
  forall rules, Forall P (keys rules) ->
  Forall P (keys (fst (scanFiles toolName toolFiles rules))).
Proof.
  induction toolFiles as [|[file read] rest IH]; intros HP rules Hr; simpl.
  - exact Hr.
  - destruct (JS.endsWith file ".md") eqn:Hmd.
    + destruct read as [content|]; [|exact Hr].
      apply IH.
      * intros f r Hin. apply (HP f r). now right.
      * apply setProp_Forall; [|exact Hr].
        apply (HP file (Some content)); [now left | exact Hmd].
    + apply IH; [|exact Hr]. intros f r Hin. apply (HP f r). now right.
Qed.

Lemma scanEntry_Forall (entry : Dirent) (rules : Rules) :
  derivesOnly P entry -> Forall P (keys rules) ->
  Forall P (keys (fst (scanEntry entry rules))).
Proof.
  destruct entry as [n|n [toolFiles|]]; simpl; intros HP Hr; try exact Hr.
  pose proof (scanFiles_Forall (JS.toUpperCase n) toolFiles HP rules Hr) as H.
  destruct (scanFiles (JS.toUpperCase n) toolFiles rules) as [r []]; exact H.
Qed.

Lemma scanEntries_Forall (entries : list Dirent) :
  Forall (derivesOnly P) entries ->
  forall rules, Forall P (keys rules) ->
  Forall P (keys (fst (scanEntries entries rules))).
Proof.
  induction entries as [|entry rest IH]; intros HP rules Hr; simpl.
  - exact Hr.
  - inversion HP as [|? ? He Hrest]; subst.
    pose proof (scanEntry_Forall entry rules He Hr) as H1.
    destruct (scanEntry entry rules) as [rules1 out1].
    pose proof (IH Hrest rules1 H1) as H2.
    destruct (scanEntries rest rules1) as [rules2 out2]. exact H2.
Qed.

End ScannerFacts.

Section ScannerNoDup.

Lemma scanFiles_NoDup (toolName : string) (toolFiles : list ToolFile) :
  forall rules, NoDup (keys rules) ->
  NoDup (keys (fst (scanFiles toolName toolFiles rules))).
Proof.
  induction toolFiles as [|[file read] rest IH]; intros rules Hr; simpl.
  - exact Hr.
  - destruct (JS.endsWith file ".md").
    + destruct read as [content|]; [|exact Hr].
      apply IH. now apply setProp_NoDup.
    + now apply IH.
Qed.

Lemma scanEntry_NoDup (entry : Dirent) (rules : Rules) :
  NoDup (keys rules) -> NoDup (keys (fst (scanEntry entry rules))).
Proof.
  destruct entry as [n|n [toolFiles|]]; simpl; intro Hr; try exact Hr.
  pose proof (scanFiles_NoDup (JS.toUpperCase n) toolFiles rules Hr) as H.
  destruct (scanFiles (JS.toUpperCase n) toolFiles rules) as [r []]; exact H.
Qed.

Lemma scanEntries_NoDup (entries : list Dirent) :
  forall rules, NoDup (keys rules) ->
  NoDup (keys (fst (scanEntries entries rules))).
Proof.
  induction entries as [|entry rest IH]; intros rules Hr; simpl.
  - exact Hr.
  - pose proof (scanEntry_NoDup entry rules Hr) as H1.
    destruct (scanEntry entry rules) as [rules1 out1].
    pose proof (IH rules1 H1) as H2.
    destruct (scanEntries rest rules1) as [rules2 out2]. exact H2.
Qed.

(** Scanning a concatenation is scanning its parts in turn. *)
Lemma scanEntries_app (before after : list Dirent) : forall rules,
  scanEntries (before ++ after) rules =
  (fst (scanEntries after (fst (scanEntries before rules))),
   snd (scanEntries before rules)
   ++ snd (scanEntries after (fst (scanEntries before rules)))).
Proof.
  induction before as [|entry rest IH]; intro rules; simpl.
  - now destruct (scanEntries after rules).
  - destruct (scanEntry entry rules) as [rules1 out1].
    rewrite IH.
    destruct (scanEntries rest rules1) as [rules2 out2]; simpl.
    now rewrite app_assoc.
Qed.

(** A listing whose accepted files can all be read is scanned to its
    end. *)
Lemma scanFiles_readable (toolName : string) (toolFiles : list ToolFile) :
  readable toolFiles = true ->
  forall rules, snd (scanFiles toolName toolFiles rules) = Normal.
Proof.
  induction toolFiles as [|[file read] rest IH]; intros Hr rules; simpl.
  - reflexivity.
  - simpl in Hr. apply andb_true_iff in Hr as [Hf Hrest].
    destruct (JS.endsWith file ".md").
    + destruct read as [content|]; [now apply IH | discriminate Hf].
    + now apply IH.
Qed.

(** The scan of a listing stops at its first accepted file that cannot be
    read, keeping what the files before it wrote. *)
Lemma scanFiles_first_unreadable (toolName file : string)
    (pre post : list ToolFile) :
  readable pre = true -> JS.endsWith file ".md" = true ->
  forall rules,
  scanFiles toolName (pre ++ (file, None) :: post) rules =
  (fst (scanFiles toolName pre rules), Thrown).
Proof.
  intros Hpre Hmd.
  induction pre as [|[f read] rest IH]; intro rules; simpl.
  - now rewrite Hmd.
  - simpl in Hpre. apply andb_true_iff in Hpre as [Hf Hrest].
    destruct (JS.endsWith f ".md").
    + destruct read as [content|]; [now apply IH | discriminate Hf].
    + now apply IH.
Qed.

End ScannerNoDup.

Lemma derivesOnly_dash (entry : Dirent) :
  derivesOnly (fun k => JS.includes k "-" = true) entry.
Proof.
  destruct entry as [n|n [toolFiles|]]; simpl; auto.
  intros. apply ruleKey_dash.
Qed.

Lemma getProjectRules_ok (rulesDir : RulesDir) :
  snapshotOk (fst (getProjectRules rulesDir)).
Proof.
  destruct rulesDir as [| |entries]; simpl.
  - split; constructor.
  - split; constructor.
  - split.
    + apply scanEntries_NoDup. constructor.
    + apply scanEntries_Forall; [|constructor].
      apply Forall_forall. intros e _. apply derivesOnly_dash.
Qed.

Lemma getCachedProjectRules_ok (rulesDir : RulesDir) (now : Z) (cache : Cache) :
  snapshotOk (rulesCache cache) ->
  snapshotOk (fst (fst (getCachedProjectRules rulesDir now cache)))
  /\ snapshotOk (rulesCache (snd (fst (getCachedProjectRules rulesDir now cache)))).
Proof.
  intro Hc. unfold getCachedProjectRules.
  destruct (mustRescan now cache).
  - pose proof (getProjectRules_ok rulesDir) as H.
    destruct (getProjectRules rulesDir) as [rules out]. simpl in *. now split.
  - simpl. now split.
Qed.

(** The cache of a running process only ever holds a snapshot. *)
Lemma reachable_ok (cache : Cache) :
  reachable cache -> snapshotOk (rulesCache cache).
Proof.
  induction 1 as [|rulesDir now cache _ IH|cache _ _].
  - split; constructor.
  - now apply getCachedProjectRules_ok.
  - split; constructor.
Qed.

Lemma snapshot_not_ALL (rules : Rules) :
  snapshotOk rules -> ~ In "ALL" (keys rules).
Proof.
  intros [_ H] Hin.
  apply (proj1 (Forall_forall _ _) H) in Hin. discriminate Hin.
Qed.

(* ================================================================== *)
(** ** The cache *)
(* ================================================================== *)

Section CacheFacts.

Lemma scanEntries_out (entries : list Dirent) : forall rules,
  Forall (fun l => exists n, l = ErrReadingToolDir n)
         (snd (scanEntries entries rules)).
Proof.
  induction entries as [|entry rest IH]; intro rules; simpl.
  - constructor.
  - destruct (scanEntry entry rules) as [rules1 out1] eqn:He.
    specialize (IH rules1).
    destruct (scanEntries rest rules1) as [rules2 out2]; simpl in *.
    apply Forall_app. split; [|exact IH].
    destruct entry as [n|n [toolFiles|]]; simpl in He.
    + inversion He; constructor.
    + destruct (scanFiles (JS.toUpperCase n) toolFiles rules) as [r []];
        inversion He; repeat constructor. now exists n.
    + inversion He; repeat constructor. now exists n.
Qed.

(** The scanner writes scanner lines only; it reports a missing rules
    directory only when the directory is missing. *)
Lemma getProjectRules_out (rulesDir : RulesDir) :
  Forall (fun l => scannerLine l = true) (snd (getProjectRules rulesDir))
  /\ (In ErrRulesDirNotFound (snd (getProjectRules rulesDir)) ->
      rulesDir = RootMissing).
Proof.
  destruct rulesDir as [| |entries]; simpl.
  - split; [repeat constructor | reflexivity].
  - split; [repeat constructor | intros [H|[]]; discriminate H].
  - pose proof (scanEntries_out entries []) as H.
    rewrite Forall_forall in H. split.
    + apply Forall_forall. intros l Hl. now destruct (H l Hl) as [n ->].
    + intro Hin. destruct (H _ Hin) as [n Hn]. discriminate Hn.
Qed.

Lemma rescans_scanner (out : list Console) :
  Forall (fun l => scannerLine l = true) out -> rescans out = 0.
Proof.
  unfold rescans. induction 1 as [|l out Hl _ IH]; [reflexivity|].
  simpl. destruct l; try discriminate Hl; exact IH.
Qed.

Lemma rescans_app (a b : list Console) : rescans (a ++ b) = rescans a + rescans b.
Proof. unfold rescans. now rewrite filter_app, length_app. Qed.

(** A read that rescans announces it once. *)
Lemma rescans_read (rulesDir : RulesDir) (now : Z) (cache : Cache) :
  rescans (snd (getCachedProjectRules rulesDir now cache)) =
  if mustRescan now cache then 1 else 0.
Proof.
  unfold getCachedProjectRules. destruct (mustRescan now cache); [|reflexivity].
  destruct (getProjectRules_out rulesDir) as [Hout _].
  destruct (getProjectRules rulesDir) as [rules out]. simpl in *.
  change (LogRescanning :: out ++ [LogRulesLoaded (length (keys rules))])
    with ([LogRescanning] ++ out ++ [LogRulesLoaded (length (keys rules))]).
  rewrite !rescans_app, (rescans_scanner out Hout). reflexivity.
Qed.

Lemma mustRescan_iff (now : Z) (cache : Cache) :
  mustRescan now cache = true <->
  rulesCache cache = [] \/ (now - lastScanTime cache > 5000)%Z.
Proof.
  unfold mustRescan. rewrite orb_true_iff, Nat.eqb_eq, Z.ltb_lt.
  unfold keys. rewrite length_map.
  destruct (rulesCache cache); simpl; intuition (try discriminate; try lia).
Qed.

End CacheFacts.

(* ================================================================== *)
(** ** Properties of the specification *)
(* ================================================================== *)

(** C1, as the specification states it, fails: a read that finds the rules
    directory missing while a non-empty snapshot is held does not return
    that snapshot. The snapshot [GENERAL-RULES] is loaded at time 1000; at
    time 7000 it is stale, the directory is gone, and the read returns the
    empty mapping. *)
Lemma read_missing_root_drops_prior_snapshot :
  let prior := snd (fst (getCachedProjectRules oneRuleRepo 1000 initialCache)) in
  rulesCache prior = [("GENERAL-RULES", "# Rules")]
  /\ In ErrRulesDirNotFound (snd (getCachedProjectRules RootMissing 7000 prior))
  /\ fst (fst (getCachedProjectRules RootMissing 7000 prior)) <> rulesCache prior.
Proof.
  vm_compute. repeat split.
  - right. left. reflexivity.
  - discriminate.
Qed.

(** C1 (amended). Every read that runs the scanner (the held mapping has
    no entry, or the last scan is more than 5000 ms old) while the rules
    directory is missing reports the missing directory, returns the empty
    mapping and installs it in the cache with the time of the read,
    whatever snapshot was held before. The read is a total function:
    nothing is raised to the caller. *)
Theorem read_missing_root_serves_empty (now : Z) (cache : Cache) :
  rulesCache cache = [] \/ (now - lastScanTime cache > 5000)%Z ->
  getCachedProjectRules RootMissing now cache
  = ([], mkCache [] now,
     [LogRescanning; ErrRulesDirNotFound; LogRulesLoaded 0]).
Proof.
  intro H. apply mustRescan_iff in H.
  unfold getCachedProjectRules. rewrite H. reflexivity.
Qed.

Lemma read_missing_root_serves_empty_witness :
  getCachedProjectRules RootMissing 7000
    (mkCache [("GENERAL-RULES", "# Rules")] 1000)
  = ([], mkCache [] 7000,
     [LogRescanning; ErrRulesDirNotFound; LogRulesLoaded 0]).
Proof.
  apply (read_missing_root_serves_empty 7000
           (mkCache [("GENERAL-RULES", "# Rules")] 1000)).
  right. simpl. lia.
Defined.

Section KeyDerivation.

Open Scope string_scope.

Lemma append_cancel_r (a b c : string) : a ++ c = b ++ c -> a = b.
Proof.
  revert b. induction a as [|x a IH]; intros [|y b] H; simpl in H.
  - reflexivity.
  - apply (f_equal String.length) in H. simpl in H.
    rewrite length_append in H. lia.
  - apply (f_equal String.length) in H. simpl in H.
    rewrite length_append in H. lia.
  - inversion H; subst. f_equal. now apply IH.
Qed.

(** C2, as the specification states it, fails: the overview name is
    matched exactly, not without regard to case. [readme.md] in group
    [general] gets the key [GENERAL-README]. *)
Lemma ruleKey_readme_is_case_sensitive :
  JS.endsWith "readme.md" ".md" = true
  /\ ruleKey (JS.toUpperCase "general") "readme.md" = "GENERAL-README"
  /\ derive_spec "general" "readme.md" = "GENERAL-OVERVIEW"
  /\ ruleKey (JS.toUpperCase "general") "readme.md"
     <> derive_spec "general" "readme.md".
Proof. vm_compute. repeat split. discriminate. Qed.

Lemma ruleKey_append_md (toolName st : string) :
  JS.includes st ".md" = false ->
  ruleKey toolName (st ++ ".md") =
  if String.eqb st "README" then toolName ++ "-OVERVIEW"
  else toolName ++ "-" ++ JS.toUpperCase st.
Proof.
  intro Hst. unfold ruleKey. rewrite (replace_md_stem st Hst).
  destruct (String.eqb_spec st "README") as [->|Hne].
  - reflexivity.
  - destruct (String.eqb_spec (st ++ ".md") "README.md") as [Heq|_];
      [|reflexivity].
    exfalso. apply Hne. now apply (append_cancel_r st "README" ".md").
Qed.

(** C2 (amended). For every group name and every file name [st.md] whose
    stem [st] does not itself contain [.md], the file is accepted and its
    key is [UPPER(group)-OVERVIEW] when the name is exactly [README.md],
    and [UPPER(group)-UPPER(st)] otherwise. *)
Theorem ruleKey_of_stem (group st : string) :
  JS.includes st ".md" = false ->
  JS.endsWith (st ++ ".md") ".md" = true
  /\ ruleKey (JS.toUpperCase group) (st ++ ".md") =
     if String.eqb st "README"
     then JS.toUpperCase group ++ "-OVERVIEW"
     else JS.toUpperCase group ++ "-" ++ JS.toUpperCase st.
Proof.
  intro Hst. split; [apply endsWith_append_md|].
  now apply ruleKey_append_md.
Qed.

Lemma ruleKey_of_stem_witness :
  ruleKey (JS.toUpperCase "general") "README.md" = "GENERAL-OVERVIEW"
  /\ ruleKey (JS.toUpperCase "general") "COMMIT-MESSAGES.md"
     = "GENERAL-COMMIT-MESSAGES".
Proof.
  split.
  - exact (proj2 (ruleKey_of_stem "general" "README" eq_refl)).
  - exact (proj2 (ruleKey_of_stem "general" "COMMIT-MESSAGES" eq_refl)).
Defined.

Lemma validKey_compose (toolName rest : string) :
  allChars keyChar toolName = true -> allChars keyChar rest = true ->
  validKey (toolName ++ "-" ++ rest) = true.
Proof.
  intros Ht Hr. unfold validKey.
  rewrite allChars_append, Ht. cbn [append allChars]. rewrite Hr.
  destruct toolName; reflexivity.
Qed.

(** With plain names, a tool directory derives keys of [[A-Z0-9_-]+]
    only. *)
Lemma plainEntry_valid (entry : Dirent) :
  plainEntry entry = true ->
  derivesOnly (fun k => validKey k = true) entry.
Proof.
  destruct entry as [n|n [toolFiles|]]; simpl; auto.
  intro H. apply andb_true_iff in H as [Hn Hfiles].
  intros file read Hin Hmd.
  rewrite forallb_forall in Hfiles. specialize (Hfiles _ Hin).
  simpl in Hfiles. rewrite Hmd in Hfiles.
  rewrite (endsWith_md_stem file Hmd).
  rewrite (ruleKey_append_md _ _ (plain_excludes_md _ Hfiles)).
  destruct (String.eqb (stem file) "README").
  - apply (validKey_compose (JS.toUpperCase n) "OVERVIEW");
      [now apply toUpperCase_plain | reflexivity].
  - apply validKey_compose; now apply toUpperCase_plain.
Qed.

End KeyDerivation.

(** C3, as the specification states it, fails: a fresh snapshot with no
    entry is not served. The empty rules directory is scanned at time
    10000; one millisecond later, with nothing invalidated, the next read
    scans again. *)
Lemma read_rescans_fresh_empty_snapshot :
  let held := snd (fst (getCachedProjectRules emptyRepo 10000 initialCache)) in
  held = mkCache [] 10000
  /\ (10001 - lastScanTime held <= 5000)%Z
  /\ rescans (snd (getCachedProjectRules emptyRepo 10001 held)) = 1.
Proof. vm_compute. repeat split. discriminate. Qed.

(** C3 (amended). A read runs the scanner exactly when the held mapping
    has no entry (the state of a fresh process, of an invalidated cache
    and of a scan that found nothing) or the last scan is more than 5000
    ms old; then it installs and returns what the scanner found. In every
    other case it returns the held mapping, does not scan and leaves the
    cache as it is. *)
Theorem read_rescans_iff_empty_or_stale
    (rulesDir : RulesDir) (now : Z) (cache : Cache) :
  let result := getCachedProjectRules rulesDir now cache in
  (rescans (snd result) = 1 <->
     rulesCache cache = [] \/ (now - lastScanTime cache > 5000)%Z)
  /\ (rescans (snd result) = 0 <->
        rulesCache cache <> [] /\ (now - lastScanTime cache <= 5000)%Z)
  /\ (rescans (snd result) = 1 ->
        fst (fst result) = fst (getProjectRules rulesDir)
        /\ snd (fst result) = mkCache (fst (getProjectRules rulesDir)) now)
  /\ (rescans (snd result) = 0 ->
        fst (fst result) = rulesCache cache /\ snd (fst result) = cache).
Proof.
  cbv zeta. rewrite rescans_read.
  pose proof (mustRescan_iff now cache) as Hiff.
  unfold getCachedProjectRules.
  destruct (mustRescan now cache).
  - assert (Hc : rulesCache cache = [] \/ (now - lastScanTime cache > 5000)%Z)
      by now apply Hiff.
    destruct (getProjectRules rulesDir) as [rules out]; simpl.
    split; [tauto|]. split; [|split; [tauto | discriminate]].
    split; [discriminate|]. intros [Hne Hle]. destruct Hc; [contradiction | lia].
  - assert (Hc : ~ (rulesCache cache = [] \/ (now - lastScanTime cache > 5000)%Z)).
    { intro H. apply Hiff in H. discriminate H. }
    simpl. split; [split; [discriminate | contradiction]|].
    split; [|split; [discriminate | tauto]].
    split; [|reflexivity]. intros _. split; [tauto | lia].
Qed.

Lemma read_rescans_iff_empty_or_stale_witness :
  rescans (snd (getCachedProjectRules scenarioRepo 3000
                  (mkCache [("GENERAL-RULES", "# Rules")] 1000))) = 0
  /\ fst (fst (getCachedProjectRules scenarioRepo 3000
                 (mkCache [("GENERAL-RULES", "# Rules")] 1000)))
     = [("GENERAL-RULES", "# Rules")].
Proof.
  pose proof (read_rescans_iff_empty_or_stale scenarioRepo 3000
                (mkCache [("GENERAL-RULES", "# Rules")] 1000)) as H.
  cbv zeta in H. destruct H as (_ & H0 & _ & Hserve).
  assert (Hz : rescans (snd (getCachedProjectRules scenarioRepo 3000
                  (mkCache [("GENERAL-RULES", "# Rules")] 1000))) = 0).
  { apply (proj2 H0). split; [discriminate | simpl; lia]. }
  split; [exact Hz | exact (proj1 (Hserve Hz))].
Defined.

Section PartialFailure.

Lemma scanEntries_cons (entry : Dirent) (rest : list Dirent) (rules : Rules) :
  scanEntries (entry :: rest) rules =
  (fst (scanEntries rest (fst (scanEntry entry rules))),
   snd (scanEntry entry rules)
   ++ snd (scanEntries rest (fst (scanEntry entry rules)))).
Proof.
  simpl. destruct (scanEntry entry rules) as [rules1 out1]; simpl.
  now destruct (scanEntries rest rules1).
Qed.

(** Two tool directories that leave the same rules are interchangeable in
    a scan, and what either reports is on the console of the scan. *)
Lemma scan_same_entry (before after : list Dirent) (e1 e2 : Dirent) :
  (forall rules, fst (scanEntry e1 rules) = fst (scanEntry e2 rules)) ->
  fst (getProjectRules (Root (before ++ e1 :: after)))
  = fst (getProjectRules (Root (before ++ e2 :: after))).
Proof.
  intro H. simpl. rewrite !scanEntries_app, !scanEntries_cons. simpl.
  now rewrite H.
Qed.

Lemma scan_reports_entry (before after : list Dirent) (e : Dirent) (l : Console) :
  (forall rules, In l (snd (scanEntry e rules))) ->
  In l (snd (getProjectRules (Root (before ++ e :: after)))).
Proof.
  intro H. simpl. rewrite scanEntries_app, scanEntries_cons. simpl.
  apply in_or_app. right. apply in_or_app. left. apply H.
Qed.

(** C5, as the specification states it, fails for a failure to read: the
    entries written before the failing file stay. In the tool directory
    [g], [A.md] is read and [B.md] cannot be; the snapshot holds [G-A]. *)
Lemma read_failure_keeps_earlier_entries :
  groupFails halfReadGroup = true
  /\ fst (getProjectRules (Root [halfReadGroup])) = [("G-A", "# A")]
  /\ fst (getProjectRules (Root [halfReadGroup]))
     <> fst (getProjectRules (Root [])).
Proof. vm_compute. repeat split. discriminate. Qed.

(** C5 (amended). A tool directory whose files cannot be enumerated
    contributes no entry: the snapshot is the one of the scan without that
    directory. A tool directory in which reading a file fails contributes
    the entries of the files before the first one that cannot be read, and
    no more. In both cases the failure is reported on the console, the
    scanner goes on with the directories that follow, and the scan returns
    its snapshot. *)
Theorem group_failure_is_contained
    (before after : list Dirent) (name : string) :
  (fst (getProjectRules (Root (before ++ Directory name None :: after)))
   = fst (getProjectRules (Root (before ++ after)))
   /\ In (ErrReadingToolDir name)
         (snd (getProjectRules (Root (before ++ Directory name None :: after)))))
  /\ (forall (pre post : list ToolFile) (file : string),
        readable pre = true -> JS.endsWith file ".md" = true ->
        let failing := Directory name (Some (pre ++ (file, None) :: post)) in
        fst (getProjectRules (Root (before ++ failing :: after)))
        = fst (getProjectRules (Root (before ++ Directory name (Some pre) :: after)))
        /\ In (ErrReadingToolDir name)
              (snd (getProjectRules (Root (before ++ failing :: after))))).
Proof.
  split; [split|].
  - simpl. rewrite !scanEntries_app, scanEntries_cons. reflexivity.
  - apply scan_reports_entry. intro rules. now left.
  - intros pre post file Hpre Hmd failing. subst failing. split.
    + apply scan_same_entry. intro rules. simpl.
      rewrite (scanFiles_first_unreadable _ _ _ post Hpre Hmd).
      pose proof (scanFiles_readable (JS.toUpperCase name) pre Hpre rules) as Hn.
      destruct (scanFiles (JS.toUpperCase name) pre rules) as [r c].
      simpl in Hn. now subst c.
    + apply scan_reports_entry. intro rules. simpl.
      rewrite (scanFiles_first_unreadable _ _ _ post Hpre Hmd). now left.
Qed.

Lemma group_failure_is_contained_witness :
  fst (getProjectRules
         (Root ([] ++ Directory "g" (Some ([("A.md", Some "# A")]
                                          ++ ("B.md", None) :: [("C.md", Some "# C")]))
                :: [Directory "general" (Some [("RULES.md", Some "# Rules")])])))
  = [("G-A", "# A"); ("GENERAL-RULES", "# Rules")].
Proof.
  pose proof (proj2 (group_failure_is_contained
                       [] [Directory "general" (Some [("RULES.md", Some "# Rules")])] "g")
                    [("A.md", Some "# A")] [("C.md", Some "# C")] "B.md"
                    eq_refl eq_refl) as H.
  cbv zeta in H. destruct H as [H _].
  exact (eq_trans H eq_refl).
Defined.

End PartialFailure.

Section Invalidation.

Lemma iter_invalidate (n : nat) (cache : Cache) :
  1 <= n -> Nat.iter n invalidate cache = invalidate cache.
Proof. destruct n as [|n]; [lia | reflexivity]. Qed.

(** Watcher events on [.md] files are so many invalidations. *)
Lemma onWatchEvents_md (events : list (string * option string)) :
  forallb mdEvent events = true ->
  forall cache,
  onWatchEvents events cache = Nat.iter (List.length events) invalidate cache.
Proof.
  induction events as [|[eventType filename] rest IH]; intros Hmd cache.
  - reflexivity.
  - cbn [forallb] in Hmd. apply andb_true_iff in Hmd as [He Hrest].
    unfold mdEvent in He. cbn [snd] in He.
    destruct filename as [f|]; [|discriminate He].
    cbn [onWatchEvents onWatchEvent]. rewrite He.
    assert (Hne : String.eqb f EmptyString = false).
    { destruct f; [discriminate He | reflexivity]. }
    rewrite Hne. cbn [negb andb fst]. rewrite (IH Hrest).
    cbn [List.length]. now rewrite Nat.iter_succ_r.
Qed.

(** C6. The watcher reporting n >= 1 changes of [.md] files is n calls of
    [invalidate], which leave the cache exactly as one call does; the next
    read then scans once: it announces one rescan and returns what the
    scanner finds, as after a single invalidation. *)
Theorem invalidations_collapse
    (n : nat) (events : list (string * option string))
    (rulesDir : RulesDir) (now : Z) (cache : Cache) :
  1 <= n -> List.length events = n -> forallb mdEvent events = true ->
  let invalidated := onWatchEvents events cache in
  invalidated = Nat.iter n invalidate cache
  /\ invalidated = invalidate cache
  /\ rescans (snd (getCachedProjectRules rulesDir now invalidated)) = 1
  /\ fst (fst (getCachedProjectRules rulesDir now invalidated))
     = fst (getProjectRules rulesDir)
  /\ getCachedProjectRules rulesDir now invalidated
     = getCachedProjectRules rulesDir now (invalidate cache).
Proof.
  intros Hn Hlen Hmd invalidated. subst invalidated.
  rewrite (onWatchEvents_md events Hmd cache), Hlen.
  split; [reflexivity|].
  rewrite (iter_invalidate n cache Hn).
  split; [reflexivity|]. rewrite rescans_read.
  unfold getCachedProjectRules, invalidate. simpl.
  destruct (getProjectRules rulesDir) as [rules out]. now repeat split.
Qed.

Lemma invalidations_collapse_witness :
  rescans (snd (getCachedProjectRules scenarioRepo 2000
                  (onWatchEvents [("change", Some "general/RULES.md");
                                  ("rename", Some "general/NEW.md");
                                  ("change", Some "general/NEW.md")]
                     (mkCache [("GENERAL-RULES", "# Rules")] 1000)))) = 1.
Proof.
  exact (proj1 (proj2 (proj2 (invalidations_collapse 3
                         [("change", Some "general/RULES.md");
                          ("rename", Some "general/NEW.md");
                          ("change", Some "general/NEW.md")]
                         scenarioRepo 2000
                         (mkCache [("GENERAL-RULES", "# Rules")] 1000)
                         (le_S _ _ (le_S _ _ (le_n 1))) eq_refl eq_refl)))).
Defined.

End Invalidation.

(* ================================================================== *)
(** ** The query surface *)
(* ================================================================== *)

Section QuerySurface.

Lemma get_eq (rulesDir : RulesDir) (now : Z) (cache : Cache) (key : string) :
  get rulesDir now cache key =
  ruleResponse (fst (fst (getCachedProjectRules rulesDir now cache))) key.
Proof.
  unfold get, callTool. cbn [name rule_type].
  change (String.eqb "get_project_rules" "get_project_rules") with true.
  cbv iota. now destruct (getCachedProjectRules rulesDir now cache) as [[r c] o].
Qed.

Lemma getAvailableRuleTypes_eq (rulesDir : RulesDir) (now : Z) (cache : Cache) :
  fst (fst (getAvailableRuleTypes rulesDir now cache)) =
  keys (fst (fst (getCachedProjectRules rulesDir now cache))) ++ ["ALL"].
Proof.
  unfold getAvailableRuleTypes.
  now destruct (getCachedProjectRules rulesDir now cache) as [[r c] o].
Qed.

(** What a read returns from a reachable cache is a snapshot. *)
Lemma read_ok (rulesDir : RulesDir) (now : Z) (cache : Cache) :
  reachable cache ->
  snapshotOk (fst (fst (getCachedProjectRules rulesDir now cache))).
Proof.
  intro H. now apply getCachedProjectRules_ok, reachable_ok.
Qed.

(** A key of the snapshot with content is answered with that content. *)
Lemma ruleResponse_present (rules : Rules) (key content : string) :
  key <> "ALL" -> ownProp key rules = Some content -> content <> EmptyString ->
  ruleResponse rules key = Content (Str content).
Proof.
  intros Hall Hown Hne. unfold ruleResponse, getProp.
  destruct (String.eqb_spec key "ALL") as [|_]; [contradiction|].
  rewrite Hown. simpl.
  destruct (String.eqb_spec content EmptyString); [contradiction | reflexivity].
Qed.

(** A key that is neither in the snapshot nor a property name of
    [Object.prototype] is unknown. *)
Lemma ruleResponse_absent (rules : Rules) (key : string) :
  key <> "ALL" -> ownProp key rules = None -> ~ In key objectPrototype ->
  ruleResponse rules key = UnknownKey key.
Proof.
  intros Hall Hown Hproto. unfold ruleResponse, getProp.
  destruct (String.eqb_spec key "ALL") as [|_]; [contradiction|].
  rewrite Hown.
  destruct (existsb (String.eqb key) objectPrototype) eqn:He; [|reflexivity].
  exfalso. apply Hproto. apply existsb_exists in He as (x & Hx & Heq).
  apply String.eqb_eq in Heq. now subst x.
Qed.

(** A property name of [Object.prototype] is never unknown: it is in no
    snapshot, and the read of the inherited property is truthy. *)
Lemma ruleResponse_inherited (rules : Rules) (key : string) :
  snapshotOk rules -> In key objectPrototype ->
  ownProp key rules = None
  /\ ruleResponse rules key = Content (Inherited key).
Proof.
  intros [_ Hdash] Hin.
  assert (Hnodash : JS.includes key "-" = false).
  { unfold objectPrototype in Hin. simpl in Hin.
    repeat (destruct Hin as [<-|Hin]; [reflexivity|]). contradiction. }
  assert (Hown : ownProp key rules = None).
  { apply ownProp_None. intro Hk.
    apply (proj1 (Forall_forall _ _) Hdash) in Hk. congruence. }
  split; [exact Hown|].
  unfold ruleResponse, getProp. rewrite Hown.
  assert (Hall : String.eqb key "ALL" = false).
  { unfold objectPrototype in Hin. simpl in Hin.
    repeat (destruct Hin as [<-|Hin]; [reflexivity|]). contradiction. }
  rewrite Hall.
  assert (He : existsb (String.eqb key) objectPrototype = true).
  { apply existsb_exists. exists key. split; [exact Hin | apply String.eqb_refl]. }
  now rewrite He.
Qed.

(** C7. From every reachable cache and for every key [k] other than
    [ALL]: a key of the snapshot with non-empty content is answered with
    that content, and an absent key that [Object.prototype] does not
    define fails with the unknown-key error, as the specification says; but a property
    name of [Object.prototype], such as [constructor], is absent from
    every snapshot and does not fail: the tool call answers with the
    inherited property. *)
Theorem get_by_key (rulesDir : RulesDir) (now : Z) (cache : Cache) (k : string) :
  reachable cache -> k <> "ALL" ->
  let rules := fst (fst (getCachedProjectRules rulesDir now cache)) in
  (forall content, In (k, content) rules -> content <> EmptyString ->
     get rulesDir now cache k = Content (Str content))
  /\ (~ In k (keys rules) -> ~ In k objectPrototype ->
      get rulesDir now cache k = UnknownKey k)
  /\ (In k objectPrototype ->
      ~ In k (keys rules)
      /\ get rulesDir now cache k = Content (Inherited k)
      /\ get rulesDir now cache k <> UnknownKey k).
Proof.
  intros Hreach Hall rules.
  pose proof (read_ok rulesDir now cache Hreach) as Hok. fold rules in Hok.
  rewrite get_eq. fold rules.
  split; [|split].
  - intros content Hin Hne. apply ruleResponse_present; try assumption.
    apply ownProp_In; [apply Hok | exact Hin].
  - intros Hnotin Hproto. apply ruleResponse_absent; try assumption.
    now apply ownProp_None.
  - intro Hproto.
    destruct (ruleResponse_inherited rules k Hok Hproto) as [Hown Hresp].
    split; [now apply ownProp_None|]. rewrite Hresp.
    split; [reflexivity | discriminate].
Qed.

Lemma get_by_key_witness :
  ~ In "constructor"
       (keys (fst (fst (getCachedProjectRules scenarioRepo 0 initialCache))))
  /\ get scenarioRepo 0 initialCache "constructor"
     = Content (Inherited "constructor")
  /\ get scenarioRepo 0 initialCache "constructor" <> UnknownKey "constructor".
Proof.
  assert (Hall : "constructor" <> "ALL") by discriminate.
  assert (Hproto : In "constructor" objectPrototype) by (left; reflexivity).
  exact (proj2 (proj2 (get_by_key scenarioRepo 0 initialCache "constructor"
                         reachable_initial Hall)) Hproto).
Defined.

(** C9. The listing is the keys of the entries of the snapshot that the
    read returns, one for each entry and in their order, followed by
    [ALL]: a key is listed exactly when it is [ALL] or the snapshot has an
    entry with that key. [ALL] is listed whatever the snapshot holds, and
    alone when the snapshot is empty. *)
Theorem listKeys_is_keys_and_ALL (rulesDir : RulesDir) (now : Z) (cache : Cache) :
  let rules := fst (fst (getCachedProjectRules rulesDir now cache)) in
  let listed := fst (fst (getAvailableRuleTypes rulesDir now cache)) in
  listed = map fst rules ++ ["ALL"]
  /\ List.length listed = S (List.length rules)
  /\ In "ALL" listed
  /\ (forall k, In k listed
                <-> k = "ALL" \/ exists content, In (k, content) rules)
  /\ (rules = [] -> listed = ["ALL"]).
Proof.
  intros rules listed.
  assert (Hlisted : listed = map fst rules ++ ["ALL"])
    by apply getAvailableRuleTypes_eq.
  rewrite Hlisted. split; [reflexivity|].
  split; [rewrite length_app, length_map; simpl; lia|].
  split; [apply in_or_app; right; now left|].
  split.
  - intro k. rewrite in_app_iff, in_map_iff. simpl. split.
    + intros [((k', content) & Hk & Hin)|[Hk|[]]].
      * right. exists content. simpl in Hk. now subst k'.
      * left. now symmetry.
    + intros [->|(content & Hin)]; [right; now left|].
      left. now exists (k, content).
  - intros ->. reflexivity.
Qed.

Lemma listKeys_is_keys_and_ALL_witness :
  fst (fst (getAvailableRuleTypes scenarioRepo 0 initialCache))
  = ["GENERAL-OVERVIEW"; "GENERAL-RULES"; "ALL"]
  /\ ("GENERAL-RULES" = "ALL"
      \/ exists content,
           In ("GENERAL-RULES", content)
              (fst (fst (getCachedProjectRules scenarioRepo 0 initialCache)))).
Proof.
  split.
  - exact (proj1 (listKeys_is_keys_and_ALL scenarioRepo 0 initialCache)).
  - apply (proj1 (proj2 (proj2 (proj2
             (listKeys_is_keys_and_ALL scenarioRepo 0 initialCache))))).
    vm_compute. right. left. reflexivity.
Defined.

(** C10. From every reachable cache, when the snapshot holds the key [k]
    with the empty string as its content, the tool call for [k] fails
    with the unknown-key error, as it does for a key that is missing. *)
Theorem get_empty_content_is_unknown
    (rulesDir : RulesDir) (now : Z) (cache : Cache) (k : string) :
  reachable cache ->
  In (k, EmptyString) (fst (fst (getCachedProjectRules rulesDir now cache))) ->
  get rulesDir now cache k = UnknownKey k.
Proof.
  intros Hreach Hin.
  pose proof (read_ok rulesDir now cache Hreach) as Hok.
  rewrite get_eq.
  set (rules := fst (fst (getCachedProjectRules rulesDir now cache))) in *.
  assert (Hall : k <> "ALL").
  { intros ->. apply (snapshot_not_ALL rules Hok).
    now apply (in_map fst) in Hin. }
  destruct Hok as [Hnd _].
  pose proof (ownProp_In k EmptyString rules Hnd Hin) as Hown.
  unfold ruleResponse, getProp.
  destruct (String.eqb_spec k "ALL") as [|_]; [contradiction|].
  now rewrite Hown.
Qed.

Lemma get_empty_content_is_unknown_witness :
  get emptyDocRepo 0 initialCache "GENERAL-EMPTY" = UnknownKey "GENERAL-EMPTY".
Proof.
  apply (get_empty_content_is_unknown emptyDocRepo 0 initialCache "GENERAL-EMPTY"
           reachable_initial).
  vm_compute. right. left. reflexivity.
Defined.

End QuerySurface.

(* ================================================================== *)
(** ** More on the scanner *)
(* ================================================================== *)

Section ScanDescription.

Lemma upperChar_idempotent (c : ascii) :
  JS.upperChar (JS.upperChar c) = JS.upperChar c.
Proof. destruct c as [[] [] [] [] [] [] [] []]; reflexivity. Qed.

Lemma toUpperCase_idempotent (s : string) :
  JS.toUpperCase (JS.toUpperCase s) = JS.toUpperCase s.
Proof.
  induction s as [|c s IH]; simpl; [reflexivity|].
  now rewrite upperChar_idempotent, IH.
Qed.

Lemma ruleKey_upper (name file : string) :
  JS.toUpperCase (ruleKey (JS.toUpperCase name) file)
  = ruleKey (JS.toUpperCase name) file.
Proof.
  unfold ruleKey. destruct (String.eqb file "README.md").
  - rewrite toUpperCase_append, toUpperCase_idempotent. reflexivity.
  - rewrite !toUpperCase_append, !toUpperCase_idempotent. reflexivity.
Qed.

(** The scan of a listing performs its assignments in order. *)
Lemma scanFiles_assignments (toolName : string) (toolFiles : list ToolFile) :
  forall rules,
  fst (scanFiles toolName toolFiles rules)
  = fold_left (fun r kv => setProp (fst kv) (snd kv) r)
              (fileAssignments toolName toolFiles) rules.
Proof.
  induction toolFiles as [|[file read] rest IH]; intro rules; simpl.
  - reflexivity.
  - destruct (JS.endsWith file ".md"); [|apply IH].
    destruct read as [content|]; [|reflexivity]. simpl. apply IH.
Qed.

Lemma scanEntry_assignments (entry : Dirent) (rules : Rules) :
  fst (scanEntry entry rules)
  = fold_left (fun r kv => setProp (fst kv) (snd kv) r)
              (entryAssignments entry) rules.
Proof.
  destruct entry as [n|n [toolFiles|]]; simpl; try reflexivity.
  rewrite <- scanFiles_assignments.
  now destruct (scanFiles (JS.toUpperCase n) toolFiles rules) as [r []].
Qed.

Lemma scanEntries_assignments (entries : list Dirent) : forall rules,
  fst (scanEntries entries rules)
  = fold_left (fun r kv => setProp (fst kv) (snd kv) r)
              (flat_map entryAssignments entries) rules.
Proof.
  induction entries as [|entry rest IH]; intro rules.
  - reflexivity.
  - rewrite scanEntries_cons. cbn [fst flat_map].
    rewrite fold_left_app, <- scanEntry_assignments. apply IH.
Qed.

Lemma getProjectRules_assignments (rulesDir : RulesDir) :
  fst (getProjectRules rulesDir)
  = fold_left (fun r kv => setProp (fst kv) (snd kv) r) (assignments rulesDir) [].
Proof.
  destruct rulesDir as [| |entries]; try reflexivity.
  apply scanEntries_assignments.
Qed.

Lemma ownProp_setProp (key content k : string) (rules : Rules) :
  ownProp k (setProp key content rules)
  = if String.eqb key k then Some content else ownProp k rules.
Proof.
  induction rules as [|[k' v'] rest IH]; simpl.
  - reflexivity.
  - destruct (String.eqb_spec k' key) as [->|Hne]; simpl.
    + destruct (String.eqb key k); reflexivity.
    + rewrite IH. destruct (String.eqb_spec k' k) as [->|_]; [|reflexivity].
      destruct (String.eqb_spec key k) as [->|_]; [contradiction | reflexivity].
Qed.

Lemma ownProp_assignments (k : string) (writes : list (string * string)) :
  forall rules found,
  found = ownProp k rules ->
  ownProp k (fold_left (fun r kv => setProp (fst kv) (snd kv) r) writes rules)
  = fold_left (fun found kv => if String.eqb (fst kv) k then Some (snd kv)
                               else found) writes found.
Proof.
  induction writes as [|[key content] rest IH]; intros rules found Hf; simpl.
  - now symmetry.
  - apply IH. rewrite ownProp_setProp. simpl. now rewrite Hf.
Qed.

(** Last write wins: for every key, the snapshot has an own property
    exactly when some scanned file derives the key, and its value is the
    content of the last such file in the order of the scan. A property
    read [rules[k]] gives that content; for a key that no scanned file
    derives it gives the inherited property when [k] is a property name of
    [Object.prototype], and [undefined] otherwise. *)
Theorem scan_last_write_wins (rulesDir : RulesDir) (k : string) :
  ownProp k (fst (getProjectRules rulesDir))
  = lastAssigned k (assignments rulesDir)
  /\ getProp (fst (getProjectRules rulesDir)) k
     = match lastAssigned k (assignments rulesDir) with
       | Some content => Str content
       | None => if existsb (String.eqb k) objectPrototype then Inherited k
                 else Undefined
       end.
Proof.
  assert (H : ownProp k (fst (getProjectRules rulesDir))
              = lastAssigned k (assignments rulesDir)).
  { rewrite getProjectRules_assignments. unfold lastAssigned.
    now apply ownProp_assignments. }
  split; [exact H|]. unfold getProp. now rewrite H.
Qed.

Lemma existsb_eqb_In (k : string) (ks : list string) :
  existsb (String.eqb k) ks = true <-> In k ks.
Proof.
  rewrite existsb_exists. split.
  - intros (x & Hx & Heq). apply String.eqb_eq in Heq. now subst.
  - intro H. exists k. split; [exact H | apply String.eqb_refl].
Qed.

Lemma setProp_keys (key content : string) (rules : Rules) :
  keys (setProp key content rules)
  = if existsb (String.eqb key) (keys rules) then keys rules
    else keys rules ++ [key].
Proof.
  unfold keys. induction rules as [|[k v] rest IH]; simpl.
  - reflexivity.
  - rewrite (String.eqb_sym key k).
    destruct (String.eqb_spec k key) as [->|Hne]; simpl.
    + reflexivity.
    + rewrite IH.
      now destruct (existsb (String.eqb key) (map fst rest)).
Qed.

Lemma keys_assignments (writes : list (string * string)) : forall rules,
  keys (fold_left (fun r kv => setProp (fst kv) (snd kv) r) writes rules)
  = keys rules ++ firstSeen (keys rules) (map fst writes).
Proof.
  induction writes as [|[key content] rest IH]; intro rules; simpl.
  - now rewrite app_nil_r.
  - rewrite IH, setProp_keys.
    destruct (existsb (String.eqb key) (keys rules)); [reflexivity|].
    now rewrite <- app_assoc.
Qed.

(** The order of a snapshot: its keys are the keys the scan derives, each
    once, in the order in which the scan first derives them; a later file
    with the same key changes the content and not the place. *)
Theorem scan_keys_in_first_write_order (rulesDir : RulesDir) :
  keys (fst (getProjectRules rulesDir))
  = firstSeen [] (map fst (assignments rulesDir)).
Proof.
  rewrite getProjectRules_assignments. apply keys_assignments.
Qed.

End ScanDescription.

Section ScanCoverage.

Lemma In_setProp (key content : string) (rules : Rules) (e : string * string) :
  In e (setProp key content rules) -> e = (key, content) \/ In e rules.
Proof.
  induction rules as [|[k v] rest IH]; simpl.
  - intros [<-|[]]. now left.
  - destruct (String.eqb_spec k key) as [->|Hne]; simpl.
    + intros [<-|H]; [now left | right; now right].
    + intros [<-|H]; [right; now left|].
      destruct (IH H) as [->|Hr]; [now left | right; now right].
Qed.

Lemma In_assignments (writes : list (string * string)) (e : string * string) :
  forall rules,
  In e (fold_left (fun r kv => setProp (fst kv) (snd kv) r) writes rules) ->
  In e writes \/ In e rules.
Proof.
  induction writes as [|[key content] rest IH]; intros rules H; simpl in *.
  - now right.
  - destruct (IH _ H) as [Hr|Hs]; [left; now right|].
    apply In_setProp in Hs. destruct Hs as [->|Hs]; [left; now left | now right].
Qed.

Lemma keys_In_assignments (writes : list (string * string)) (k : string) :
  forall rules,
  In k (keys (fold_left (fun r kv => setProp (fst kv) (snd kv) r) writes rules))
  <-> In k (map fst writes) \/ In k (keys rules).
Proof.
  induction writes as [|[key content] rest IH]; intro rules; simpl.
  - tauto.
  - rewrite IH, setProp_keys_In. intuition congruence.
Qed.

Lemma In_fileAssignments (toolName : string) (toolFiles : list ToolFile)
    (e : string * string) :
  In e (fileAssignments toolName toolFiles) ->
  exists file, In (file, Some (snd e)) toolFiles
               /\ JS.endsWith file ".md" = true
               /\ fst e = ruleKey toolName file.
Proof.
  induction toolFiles as [|[file read] rest IH]; simpl; [intros []|].
  destruct (JS.endsWith file ".md") eqn:Hmd.
  - destruct read as [content|]; [|intros []].
    intros [<-|H].
    + exists file. simpl. auto.
    + destruct (IH H) as (f & Hf & Hrest). exists f. auto.
  - intro H. destruct (IH H) as (f & Hf & Hrest). exists f. auto.
Qed.

Lemma fileAssignments_readable_app (toolName : string)
    (pre post : list ToolFile) :
  readable pre = true ->
  fileAssignments toolName (pre ++ post)
  = fileAssignments toolName pre ++ fileAssignments toolName post.
Proof.
  induction pre as [|[file read] rest IH]; intro Hr; simpl.
  - reflexivity.
  - simpl in Hr. apply andb_true_iff in Hr as [Hf Hrest].
    destruct (JS.endsWith file ".md"); [|now apply IH].
    destruct read as [content|]; [|discriminate Hf].
    simpl. f_equal. now apply IH.
Qed.

(** Nothing is invented: every entry of a snapshot is the key and the
    content of a file that ends in [.md], lies in a listed directory of
    the rules directory and could be read. *)
Theorem scan_entries_come_from_files (rulesDir : RulesDir) (k content : string) :
  In (k, content) (fst (getProjectRules rulesDir)) ->
  exists entries name toolFiles file,
    rulesDir = Root entries
    /\ In (Directory name (Some toolFiles)) entries
    /\ In (file, Some content) toolFiles
    /\ JS.endsWith file ".md" = true
    /\ k = ruleKey (JS.toUpperCase name) file.
Proof.
  rewrite getProjectRules_assignments. intro H.
  apply In_assignments in H. destruct H as [H|[]].
  destruct rulesDir as [| |entries]; simpl in H; try contradiction.
  apply in_flat_map in H. destruct H as (entry & Hentry & He).
  destruct entry as [n|n [toolFiles|]]; simpl in He; try contradiction.
  apply In_fileAssignments in He. destruct He as (file & Hf & Hmd & Hk).
  exists entries, n, toolFiles, file. simpl in *. auto.
Qed.

Lemma scan_entries_come_from_files_witness :
  exists entries name toolFiles file,
    scenarioRepo = Root entries
    /\ In (Directory name (Some toolFiles)) entries
    /\ In (file, Some "# Rules") toolFiles
    /\ JS.endsWith file ".md" = true
    /\ "GENERAL-RULES" = ruleKey (JS.toUpperCase name) file.
Proof.
  apply (scan_entries_come_from_files scenarioRepo "GENERAL-RULES" "# Rules").
  vm_compute. right. left. reflexivity.
Defined.

(** Nothing is lost before a failure: in every listed directory, each
    accepted file that comes before the first unreadable one has its key
    in the snapshot, whatever fails in the other directories. *)
Theorem scan_covers_files_before_failure
    (entries : list Dirent) (name file content : string)
    (pre post : list ToolFile) :
  In (Directory name (Some (pre ++ (file, Some content) :: post))) entries ->
  readable pre = true ->
  JS.endsWith file ".md" = true ->
  In (ruleKey (JS.toUpperCase name) file)
     (keys (fst (getProjectRules (Root entries)))).
Proof.
  intros Hin Hpre Hmd.
  rewrite getProjectRules_assignments. apply keys_In_assignments. left.
  simpl. apply in_map_iff.
  exists (ruleKey (JS.toUpperCase name) file, content). split; [reflexivity|].
  apply in_flat_map. eexists. split; [exact Hin|].
  simpl. rewrite (fileAssignments_readable_app _ _ _ Hpre).
  apply in_or_app. right. simpl. rewrite Hmd. now left.
Qed.

Lemma scan_covers_files_before_failure_witness :
  In "G-A" (keys (fst (getProjectRules
                        (Root [PlainFile "notes.txt"; halfReadGroup])))).
Proof.
  change "G-A" with (ruleKey (JS.toUpperCase "g") "A.md").
  apply (scan_covers_files_before_failure
           [PlainFile "notes.txt"; halfReadGroup] "g" "A.md" "# A"
           [] [("B.md", None)]).
  - right. left. reflexivity.
  - reflexivity.
  - reflexivity.
Defined.

Lemma scanFiles_markdownOnly (toolName : string) (toolFiles : list ToolFile) :
  forall rules,
  scanFiles toolName (markdownOnly toolFiles) rules
  = scanFiles toolName toolFiles rules.
Proof.
  induction toolFiles as [|[file read] rest IH]; intro rules; simpl.
  - reflexivity.
  - destruct (JS.endsWith file ".md") eqn:Hmd; simpl; [|apply IH].
    rewrite Hmd. destruct read as [content|]; [apply IH | reflexivity].
Qed.

Lemma scanEntries_prune (entries : list Dirent) : forall rules,
  scanEntries (prune entries) rules = scanEntries entries rules.
Proof.
  induction entries as [|entry rest IH]; intro rules.
  - reflexivity.
  - destruct entry as [n|n listing].
    + cbn [prune flat_map app]. fold (prune rest). rewrite IH.
      simpl. now destruct (scanEntries rest rules).
    + cbn [prune flat_map app]. fold (prune rest).
      rewrite !scanEntries_cons, !IH.
      assert (He : forall r, scanEntry (Directory n (option_map markdownOnly listing)) r
                             = scanEntry (Directory n listing) r).
      { intro r. destruct listing as [toolFiles|]; simpl; [|reflexivity].
        now rewrite scanFiles_markdownOnly. }
      now rewrite He.
Qed.

(** What the scanner passes over has no effect: removing from the rules
    directory the entries that are not directories, and from every listing
    the names that do not end in [.md], readable or not, changes neither
    the snapshot nor the console output of the scan. *)
Theorem scan_ignores_other_files (entries : list Dirent) :
  getProjectRules (Root (prune entries)) = getProjectRules (Root entries).
Proof. simpl. apply scanEntries_prune. Qed.

Section OverviewKey.

Open Scope string_scope.

(** The overview key is shared: in every tool directory a file named
    [overview.md], in any letter case, derives the key of [README.md], so
    of the two the one scanned later gives the content. *)
Theorem overview_file_collides_with_readme (toolName st : string) :
  JS.includes st ".md" = false ->
  JS.toUpperCase st = "OVERVIEW" ->
  ruleKey toolName (st ++ ".md") = ruleKey toolName "README.md".
Proof.
  intros Hst Hup. rewrite (ruleKey_append_md toolName st Hst), Hup.
  destruct (String.eqb_spec st "README") as [->|_]; [discriminate Hup|].
  reflexivity.
Qed.

Lemma overview_file_collides_with_readme_witness :
  ruleKey "GENERAL" "Overview.md" = ruleKey "GENERAL" "README.md".
Proof.
  exact (overview_file_collides_with_readme "GENERAL" "Overview" eq_refl eq_refl).
Defined.

End OverviewKey.

End ScanCoverage.

(* ================================================================== *)
(** ** More on the cache *)
(* ================================================================== *)

Section CacheBehaviour.

(** Within the time to live nothing is read again: while a non-empty
    snapshot is held, every read whose clock is at most 5000 ms past the
    last scan (also a clock that went backwards) returns the held mapping
    and leaves the cache as it is, however many reads there are and
    whatever the file system holds by then. *)
Theorem reads_within_ttl_serve_held_snapshot
    (reads : list (RulesDir * Z)) (cache : Cache) :
  rulesCache cache <> [] ->
  Forall (fun r => (snd r - lastScanTime cache <= 5000)%Z) reads ->
  readAll reads cache
  = (map (fun _ => rulesCache cache) reads, cache).
Proof.
  intros Hne. induction 1 as [|[rulesDir now] rest Hnow _ IH]; simpl.
  - reflexivity.
  - unfold getCachedProjectRules.
    assert (Hm : mustRescan now cache = false).
    { destruct (mustRescan now cache) eqn:Hm; [|reflexivity].
      apply mustRescan_iff in Hm. simpl in Hnow.
      destruct Hm; [contradiction | lia]. }
    rewrite Hm, IH. reflexivity.
Qed.

Lemma reads_within_ttl_serve_held_snapshot_witness :
  readAll [(RootMissing, 2000%Z); (emptyRepo, 6000%Z); (scenarioRepo, 500%Z)]
          (mkCache [("GENERAL-RULES", "# Rules")] 1000)
  = ([[("GENERAL-RULES", "# Rules")]; [("GENERAL-RULES", "# Rules")];
      [("GENERAL-RULES", "# Rules")]],
     mkCache [("GENERAL-RULES", "# Rules")] 1000).
Proof.
  apply (reads_within_ttl_serve_held_snapshot
           [(RootMissing, 2000%Z); (emptyRepo, 6000%Z); (scenarioRepo, 500%Z)]
           (mkCache [("GENERAL-RULES", "# Rules")] 1000)).
  - discriminate.
  - repeat constructor; simpl; lia.
Defined.

(** Reading again at the same instant changes nothing: a second read of
    the same file system at the same clock value returns the mapping of the
    first and leaves the cache the first one left. *)
Theorem read_again_same_instant (rulesDir : RulesDir) (now : Z) (cache : Cache) :
  let first := getCachedProjectRules rulesDir now cache in
  let second := getCachedProjectRules rulesDir now (snd (fst first)) in
  fst (fst second) = fst (fst first) /\ snd (fst second) = snd (fst first).
Proof.
  cbv zeta.
  destruct (getCachedProjectRules rulesDir now cache)
    as [[rules1 cache1] out1] eqn:H1.
  cbn [fst snd]. unfold getCachedProjectRules in H1.
  destruct (mustRescan now cache) eqn:Hm.
  - destruct (getProjectRules rulesDir) as [rules out] eqn:Hscan.
    inversion H1; subst. unfold getCachedProjectRules. rewrite Hscan.
    destruct (mustRescan now (mkCache rules1 now)); simpl; now split.
  - inversion H1; subst. unfold getCachedProjectRules. rewrite Hm. now split.
Qed.

Lemma onWatchEvents_invalidated (events : list (string * option string))
    (cache : Cache) :
  onWatchEvents events (invalidate cache) = invalidate cache.
Proof.
  induction events as [|[eventType filename] rest IH]; simpl; [reflexivity|].
  unfold onWatchEvent.
  destruct filename as [f|]; [|exact IH].
  destruct (negb (String.eqb f EmptyString) && JS.endsWith f ".md"); exact IH.
Qed.

(** What the watcher does to the cache: a sequence of events invalidates
    it when at least one of them names a file ending in [.md], and leaves
    it untouched otherwise (events without a file name, or for other
    files). *)
Theorem watcher_invalidates_iff_md_event
    (events : list (string * option string)) (cache : Cache) :
  onWatchEvents events cache
  = if existsb mdEvent events then invalidate cache else cache.
Proof.
  induction events as [|[eventType filename] rest IH]; simpl; [reflexivity|].
  unfold onWatchEvent, mdEvent at 1. cbn [snd].
  destruct filename as [f|]; [|exact IH].
  destruct (JS.endsWith f ".md") eqn:Hmd.
  - assert (Hne : String.eqb f EmptyString = false).
    { destruct f; [discriminate Hmd | reflexivity]. }
    rewrite Hne. cbn [negb andb fst orb]. apply onWatchEvents_invalidated.
  - rewrite andb_false_r. cbn [fst orb]. exact IH.
Qed.

End CacheBehaviour.

(* ================================================================== *)
(** ** More on the query surface *)
(* ================================================================== *)

Section QueryBehaviour.

Lemma In_keys_ownProp (k : string) (rules : Rules) :
  In k (keys rules) -> exists content, ownProp k rules = Some content.
Proof.
  intro H. destruct (ownProp k rules) as [c|] eqn:Ho; [now exists c|].
  apply ownProp_None in Ho. contradiction.
Qed.

Lemma ownProp_Some_In_entry (k content : string) (rules : Rules) :
  ownProp k rules = Some content -> In (k, content) rules.
Proof.
  induction rules as [|[k' v'] rest IH]; simpl; [discriminate|].
  destruct (String.eqb_spec k' k) as [->|_].
  - intro H. inversion H. now left.
  - intro H. right. now apply IH.
Qed.

(** Listed keys and their answers: from every reachable cache, a key
    that the listing of a snapshot offers is refused as unknown exactly
    when the snapshot holds it with the empty string as content; [ALL] and
    every key with content are answered. *)
Theorem listed_key_unknown_iff_empty_content
    (rulesDir : RulesDir) (now : Z) (cache : Cache) (k : string) :
  reachable cache ->
  In k (fst (fst (getAvailableRuleTypes rulesDir now cache))) ->
  (get rulesDir now cache k = UnknownKey k
   <-> In (k, EmptyString) (fst (fst (getCachedProjectRules rulesDir now cache)))).
Proof.
  intros Hreach Hk.
  pose proof (read_ok rulesDir now cache Hreach) as Hok.
  rewrite getAvailableRuleTypes_eq in Hk. rewrite get_eq.
  set (rules := fst (fst (getCachedProjectRules rulesDir now cache))) in *.
  apply in_app_or in Hk. destruct Hk as [Hk|[<-|[]]].
  - assert (Hall : k <> "ALL").
    { intros ->. now apply (snapshot_not_ALL rules Hok). }
    destruct (In_keys_ownProp k rules Hk) as [content Hown].
    destruct Hok as [Hnd _].
    destruct (string_dec content EmptyString) as [->|Hne].
    + split; [intros _; now apply ownProp_Some_In_entry|].
      intros _. unfold ruleResponse, getProp.
      destruct (String.eqb_spec k "ALL"); [contradiction|].
      now rewrite Hown.
    + rewrite (ruleResponse_present rules k content Hall Hown Hne).
      split; [discriminate|].
      intro Hin. apply (ownProp_In _ _ _ Hnd) in Hin. congruence.
  - split; [discriminate|].
    intro Hin. exfalso. apply (snapshot_not_ALL rules Hok).
    now apply (in_map fst) in Hin.
Qed.

Lemma listed_key_unknown_iff_empty_content_witness :
  get emptyDocRepo 0 initialCache "GENERAL-EMPTY" = UnknownKey "GENERAL-EMPTY"
  <-> In ("GENERAL-EMPTY", EmptyString)
         (fst (fst (getCachedProjectRules emptyDocRepo 0 initialCache))).
Proof.
  apply (listed_key_unknown_iff_empty_content emptyDocRepo 0 initialCache
           "GENERAL-EMPTY" reachable_initial).
  vm_compute. right. left. reflexivity.
Defined.

Section AllText.

Open Scope string_scope.

Lemma startsWith_append (p rest : string) : JS.startsWith (p ++ rest) p = true.
Proof.
  induction p as [|c p IH]; [reflexivity|].
  cbn [append JS.startsWith]. now rewrite Ascii.eqb_refl, IH.
Qed.

Lemma includes_refl_append (p rest : string) : JS.includes (p ++ rest) p = true.
Proof.
  destruct (p ++ rest) eqn:Heq; cbn [JS.includes];
    rewrite <- Heq, startsWith_append; reflexivity.
Qed.

Lemma includes_append_r (a b p : string) :
  JS.includes b p = true -> JS.includes (a ++ b) p = true.
Proof.
  intro H. induction a as [|c a IH]; [exact H|].
  cbn [append JS.includes].
  now destruct (JS.startsWith (String c (a ++ b)) p).
Qed.

Lemma includes_join (sep x : string) (xs : list string) :
  In x xs -> JS.includes (JS.join sep xs) x = true.
Proof.
  unfold JS.join.
  induction xs as [|y ys IH]; [intros []|].
  intros [->|Hin].
  - destruct ys as [|z zs]; cbn [String.concat].
    + rewrite <- (includes_refl_append x EmptyString) at 1.
      f_equal. induction x as [|c x IHx]; [reflexivity|].
      cbn [append]. now rewrite <- IHx.
    + apply includes_refl_append.
  - destruct ys as [|z zs]; [destruct Hin|]. cbn [String.concat].
    apply includes_append_r, includes_append_r. now apply IH.
Qed.

(** The answer to [ALL] is a text, never an error; it is the empty text
    when the snapshot is empty, and for every entry of the snapshot it
    holds the section of that entry: [## key], an empty line, the
    content. *)
Theorem get_ALL_holds_every_section
    (rulesDir : RulesDir) (now : Z) (cache : Cache) :
  let rules := fst (fst (getCachedProjectRules rulesDir now cache)) in
  exists text,
    get rulesDir now cache "ALL" = Content (Str text)
    /\ (rules = [] -> text = EmptyString)
    /\ (forall key content, In (key, content) rules ->
          JS.includes text ("## " ++ key ++ JS.LF ++ JS.LF ++ content) = true).
Proof.
  intro rules. rewrite get_eq. fold rules.
  exists (JS.join delimiter (map section rules)).
  split; [reflexivity|]. split.
  - intros ->. reflexivity.
  - intros key content Hin.
    apply includes_join.
    change ("## " ++ key ++ JS.LF ++ JS.LF ++ content)
      with (section (key, content)).
    now apply in_map.
Qed.

Lemma get_ALL_holds_every_section_witness :
  exists text,
    get scenarioRepo 0 initialCache "ALL" = Content (Str text)
    /\ JS.includes text ("## GENERAL-RULES" ++ JS.LF ++ JS.LF ++ "# Rules") = true.
Proof.
  destruct (get_ALL_holds_every_section scenarioRepo 0 initialCache)
    as (text & Hget & _ & Hsec).
  exists text. split; [exact Hget|].
  apply (Hsec "GENERAL-RULES" "# Rules").
  vm_compute. right. left. reflexivity.
Defined.

End AllText.

End QueryBehaviour.

(* ================================================================== *)
(** ** The command line *)
(* ================================================================== *)

Section CommandLine.

Import Cli.

Lemma value_is_no_flag (arg : string) :
  isValue arg = true ->
  isWatchFlag arg = false /\ isKeyboardFlag arg = false
  /\ isHelpFlag arg = false /\ isRulesDirFlag arg = false.
Proof.
  unfold isValue, isWatchFlag, isKeyboardFlag, isHelpFlag, isRulesDirFlag.
  intro H. apply andb_true_iff in H as [_ H]. apply negb_true_iff in H.
  repeat split; apply orb_false_iff; split; apply String.eqb_neq;
    intros ->; discriminate H.
Qed.

Lemma flags_exclusive (arg : string) :
  (isWatchFlag arg = true ->
     isKeyboardFlag arg = false /\ isHelpFlag arg = false
     /\ isRulesDirFlag arg = false)
  /\ (isKeyboardFlag arg = true ->
        isHelpFlag arg = false /\ isRulesDirFlag arg = false)
  /\ (isHelpFlag arg = true -> isRulesDirFlag arg = false).
Proof.
  unfold isWatchFlag, isKeyboardFlag, isHelpFlag, isRulesDirFlag.
  split; [|split]; intro H; apply orb_true_iff in H;
    destruct H as [H|H]; apply String.eqb_eq in H; subst arg;
    repeat split; reflexivity.
Qed.

(** The loop in closed form. *)
Lemma parseFrom_closed_form (n : nat) : forall args options,
  List.length args <= n ->
  parseFrom args options
  = if flagWithoutValue args then Exit 1
    else Done (mkOptions (watch options || existsb isWatchFlag args)
                         (keyboard options || existsb isKeyboardFlag args)
                         (help options || existsb isHelpFlag args)
                         (lastRulesDir args (rulesDir options))).
Proof.
  induction n as [|n IH]; intros args options Hlen.
  - destruct args; [|simpl in Hlen; lia]. simpl.
    rewrite !orb_false_r. now destruct options.
  - destruct args as [|arg rest].
    + simpl. rewrite !orb_false_r. now destruct options.
    + simpl in Hlen.
      cbn [parseFrom flagWithoutValue existsb lastRulesDir].
      destruct (flags_exclusive arg) as (Hfw & Hfk & Hfh).
      destruct (isWatchFlag arg) eqn:Hw.
      { destruct (Hfw eq_refl) as (Hk & Hh & Hr).
        rewrite Hk, Hh, Hr, IH by lia. cbn [watch keyboard help rulesDir andb orb].
        now rewrite !orb_true_r. }
      destruct (isKeyboardFlag arg) eqn:Hk.
      { destruct (Hfk eq_refl) as (Hh & Hr).
        rewrite Hh, Hr, IH by lia. cbn [watch keyboard help rulesDir andb orb].
        now rewrite !orb_true_r. }
      destruct (isHelpFlag arg) eqn:Hh.
      { rewrite (Hfh eq_refl), IH by lia.
        cbn [watch keyboard help rulesDir andb orb].
        now rewrite !orb_true_r. }
      destruct (isRulesDirFlag arg) eqn:Hr;
        [|rewrite IH by lia; reflexivity].
      destruct rest as [|nextArg rest']; [reflexivity|].
      destruct (isValue nextArg) eqn:Hv; [|reflexivity].
      destruct (value_is_no_flag nextArg Hv) as (Hvw & Hvk & Hvh & Hvr).
      simpl in Hlen. rewrite IH by lia.
      cbn [watch keyboard help rulesDir andb orb negb
           flagWithoutValue existsb lastRulesDir].
      rewrite Hvw, Hvk, Hvh, Hvr. reflexivity.
Qed.

Lemma parseArguments_closed_form (argv : list string) (env : option string) :
  parseArguments argv env
  = if flagWithoutValue (skipn 2 argv) then Exit 1
    else Done (mkOptions (existsb isWatchFlag (skipn 2 argv))
                         (existsb isKeyboardFlag (skipn 2 argv))
                         (existsb isHelpFlag (skipn 2 argv))
                         (lastRulesDir (skipn 2 argv) (rulesDir (defaults env)))).
Proof.
  unfold parseArguments.
  now rewrite (parseFrom_closed_form (List.length (skipn 2 argv))).
Qed.

(** When the command line is refused: [parseArguments] ends the process,
    always with code 1, exactly when some [--rules-dir] or [-r] is the last
    argument or is followed by an empty argument or one that starts with a
    hyphen; every other command line, unknown arguments included, is
    parsed. *)
Theorem parseArguments_exits_iff_flag_without_value
    (argv : list string) (env : option string) :
  (parseArguments argv env = Exit 1 <-> flagWithoutValue (skipn 2 argv) = true)
  /\ ((exists options, parseArguments argv env = Done options)
      <-> flagWithoutValue (skipn 2 argv) = false)
  /\ (forall code, parseArguments argv env = Exit code -> code = 1%Z).
Proof.
  rewrite parseArguments_closed_form.
  destruct (flagWithoutValue (skipn 2 argv)).
  - split; [split; reflexivity|]. split.
    + split; [intros (o & H); discriminate H | discriminate].
    + intros code H. now inversion H.
  - split; [split; discriminate|]. split.
    + split; [reflexivity | intros _; eexists; reflexivity].
    + intros code H. discriminate H.
Qed.

Lemma parseArguments_exits_iff_flag_without_value_witness :
  parseArguments ["node"; "dist/index.js"; "--rules-dir"; "--watch"] None
  = Exit 1.
Proof.
  exact (proj2 (proj1 (parseArguments_exits_iff_flag_without_value
                         ["node"; "dist/index.js"; "--rules-dir"; "--watch"]
                         None)) eq_refl).
Defined.

(** The flags of a parsed command line: [watch], [keyboard] and [help] are
    set exactly when one of their two spellings occurs among the
    arguments, at any place; no flag is ever taken for the path of
    [--rules-dir]. *)
Theorem parseArguments_flags
    (argv : list string) (env : option string) (options : Options) :
  parseArguments argv env = Done options ->
  watch options = existsb isWatchFlag (skipn 2 argv)
  /\ keyboard options = existsb isKeyboardFlag (skipn 2 argv)
  /\ help options = existsb isHelpFlag (skipn 2 argv).
Proof.
  rewrite parseArguments_closed_form.
  destruct (flagWithoutValue (skipn 2 argv)); [discriminate|].
  intro H. inversion H. now repeat split.
Qed.

Lemma parseArguments_flags_witness :
  parseArguments ["node"; "dist/index.js"; "-r"; "docs/rules"; "--watch"; "extra"]
                 None
  = Done (mkOptions true false false "docs/rules")
  /\ watch (mkOptions true false false "docs/rules") = true.
Proof.
  split; [reflexivity|].
  exact (proj1 (parseArguments_flags
                  ["node"; "dist/index.js"; "-r"; "docs/rules"; "--watch"; "extra"]
                  None (mkOptions true false false "docs/rules") eq_refl)).
Defined.

Lemma lastRulesDir_not_empty (args : list string) : forall current,
  current <> EmptyString -> lastRulesDir args current <> EmptyString.
Proof.
  induction args as [|arg rest IH]; intros current Hc; simpl; [exact Hc|].
  apply IH. destruct (isRulesDirFlag arg); [|exact Hc].
  destruct rest as [|nextArg rest']; [exact Hc|].
  destruct (isValue nextArg) eqn:Hv; [|exact Hc].
  unfold isValue in Hv. apply andb_true_iff in Hv as [Hv _].
  apply negb_true_iff in Hv. now apply String.eqb_neq.
Qed.

(** The rules directory of a parsed command line: it is the path after the
    last [--rules-dir] or [-r], else the value of [MCP_RULES_DIR] when that
    is set and not empty, else [./rules]. It is never empty, so the
    fallback to the directory next to the script, which the scanner and the
    watcher keep, is never used. *)
Theorem parseArguments_rulesDir
    (argv : list string) (env : option string) (options : Options) :
  parseArguments argv env = Done options ->
  rulesDir options = lastRulesDir (skipn 2 argv) (rulesDir (defaults env))
  /\ rulesDir options <> EmptyString
  /\ (forall fallback, effectiveRulesDir options fallback = rulesDir options).
Proof.
  rewrite parseArguments_closed_form.
  destruct (flagWithoutValue (skipn 2 argv)); [discriminate|].
  intro H.
  set (d := lastRulesDir (skipn 2 argv) (rulesDir (defaults env))).
  assert (Hd : rulesDir options = d) by (injection H as <-; reflexivity).
  assert (Hne : d <> EmptyString).
  { apply lastRulesDir_not_empty. unfold defaults. cbn [rulesDir].
    destruct env as [dir|]; [|discriminate].
    destruct (String.eqb_spec dir EmptyString); [discriminate | assumption]. }
  unfold effectiveRulesDir. rewrite Hd.
  split; [reflexivity|]. split; [exact Hne|].
  intro fallback.
  destruct (String.eqb_spec d EmptyString) as [He|_];
    [contradiction | reflexivity].
Qed.

Lemma parseArguments_rulesDir_witness :
  parseArguments ["node"; "dist/index.js"; "-r"; "a"; "--rules-dir"; "b"]
                 (Some "from-env")
  = Done (mkOptions false false false "b")
  /\ rulesDir (mkOptions false false false "b") = "b".
Proof.
  split; [reflexivity|].
  exact (proj1 (parseArguments_rulesDir
                  ["node"; "dist/index.js"; "-r"; "a"; "--rules-dir"; "b"]
                  (Some "from-env") (mkOptions false false false "b") eq_refl)).
Defined.

End CommandLine.

(* ================================================================== *)
(** ** The copy of the scanner in the test suite *)
(* ================================================================== *)

Section TestCopy.

Lemma scanTest_scanEntries (entries : list Dirent) : forall rules,
  match ScanTest.scanEntries entries rules with
  | inl rules' => scanEntries entries rules = (rules', [])
  | inr failure =>
      hd_error (snd (scanEntries entries rules))
      = Some (ScanTest.reported failure)
  end.
Proof.
  induction entries as [|entry rest IH]; intro rules.
  - reflexivity.
  - rewrite scanEntries_cons.
    destruct entry as [n|n [toolFiles|]]; cbn [ScanTest.scanEntries].
    + specialize (IH rules). simpl.
      destruct (ScanTest.scanEntries rest rules) as [r|f].
      * now rewrite IH.
      * exact IH.
    + simpl.
      destruct (scanFiles (JS.toUpperCase n) toolFiles rules) as [r []].
      * specialize (IH r). simpl.
        destruct (ScanTest.scanEntries rest r) as [r'|f].
        -- now rewrite IH.
        -- exact IH.
      * reflexivity.
    + reflexivity.
Qed.

(** The copy of [getProjectRules] that the test suite runs agrees with the
    one of [index.ts] exactly on the scans in which nothing fails: it
    returns a mapping when [index.ts] writes no error on the console, and
    then the same mapping; otherwise it throws, for the first failure that
    [index.ts] reports and goes on from. *)
Theorem test_copy_agrees_on_clean_scans (rulesDir : RulesDir) :
  match ScanTest.getProjectRules rulesDir with
  | inl rules => getProjectRules rulesDir = (rules, [])
  | inr failure =>
      hd_error (snd (getProjectRules rulesDir))
      = Some (ScanTest.reported failure)
  end.
Proof.
  destruct rulesDir as [| |entries]; try reflexivity.
  apply scanTest_scanEntries.
Qed.

End TestCopy.

(* ================================================================== *)
(** ** The process *)
(* ================================================================== *)

Section Process.

(** The watchers of a running process: none yet, or some closed ones
    followed by the one [globalWatcher] refers to. *)
Lemma running_shape (srv : Server) :
  running srv ->
  ((watchers srv = [] /\ globalWatcher srv = None)
   \/ exists n b, watchers srv = repeat false n ++ [b]
                  /\ globalWatcher srv = Some n)
  /\ 3 * List.length (watchers srv) <= processListeners srv.
Proof.
  induction 1 as [argv env dirExists srv Hstart
                 |dirExists input srv srv' _ IH Hline
                 |eventType filename srv _ IH
                 |rulesDir now srv _ IH].
  - unfold startProcess in Hstart.
    destruct (Cli.parseArguments argv env) as [options|code]; [|discriminate].
    destruct (Cli.help options); [discriminate|].
    injection Hstart as <-.
    destruct (Cli.watch options), dirExists, (Cli.keyboard options);
      simpl; (split; [|lia]);
      first [ left; split; reflexivity
            | right; exists 0, true; split; reflexivity ].
  - unfold onLine in Hline.
    destruct (String.eqb (Text.toLowerCase (Text.trim input)) "q");
      [discriminate|].
    destruct (String.eqb (Text.toLowerCase (Text.trim input)) "r");
      [|injection Hline as <-; exact IH].
    injection Hline as <-.
    destruct IH as [[[Hw Hg]|(n & b & Hw & Hg)] Hl].
    + rewrite Hg. simpl. rewrite Hw. split; [left; now split | simpl; lia].
    + rewrite Hg, Hw.
      assert (Hclose : closeAt n (repeat false n ++ [b]) = repeat false n ++ [false]).
      { clear. induction n as [|n IHn]; simpl; [reflexivity | now rewrite IHn]. }
      rewrite Hclose. rewrite Hw in Hl.
      destruct dirExists; simpl.
      * split.
        -- right. exists (S n), true. split.
           ++ change (false :: repeat false n) with (repeat false (S n)).
              rewrite (repeat_cons n false) at 1.
              now rewrite <- app_assoc.
           ++ rewrite length_app, repeat_length. simpl. f_equal. lia.
        -- rewrite !length_app, repeat_length in *. simpl in *. lia.
      * split.
        -- right. exists n, false. now split.
        -- rewrite !length_app, repeat_length in *. simpl in *. lia.
  - exact IH.
  - exact IH.
Qed.

Lemma filter_open_repeat (n : nat) (b : bool) :
  filter (fun w : bool => w) (repeat false n ++ [b]) = if b then [true] else [].
Proof.
  rewrite filter_app.
  assert (H : filter (fun w : bool => w) (repeat false n) = []).
  { induction n as [|n IH]; simpl; [reflexivity | exact IH]. }
  rewrite H. now destruct b.
Qed.

(** At most one watcher: in every state of a running process, whatever
    lines and file events it has received, no more than one watcher is
    open, an open watcher is the one [globalWatcher] refers to, and every
    watcher ever made has left its three listeners on the process. *)
Theorem running_has_at_most_one_open_watcher (srv : Server) :
  running srv ->
  openWatchers srv <= 1
  /\ (forall i, nth_error (watchers srv) i = Some true ->
                globalWatcher srv = Some i)
  /\ 3 * List.length (watchers srv) <= processListeners srv.
Proof.
  intro H. destruct (running_shape srv H) as [[[Hw Hg]|(n & b & Hw & Hg)] Hl];
    (split; [|split; [|exact Hl]]); unfold openWatchers; rewrite Hw.
  - simpl. lia.
  - intros [|i] Hi; discriminate Hi.
  - rewrite filter_open_repeat. destruct b; simpl; lia.
  - intros i Hi. rewrite Hg. f_equal.
    destruct (Nat.lt_ge_cases i n) as [Hlt|Hge].
    + rewrite nth_error_app1 in Hi by now rewrite repeat_length.
      apply nth_error_In, repeat_spec in Hi. discriminate Hi.
    + rewrite nth_error_app2 in Hi by now rewrite repeat_length.
      rewrite repeat_length in Hi.
      destruct (i - n) as [|[|k]] eqn:Hk; simpl in Hi; try discriminate; lia.
Qed.

Lemma running_has_at_most_one_open_watcher_witness :
  openWatchers (mkServer initialCache [true] (Some 0) 3) <= 1.
Proof.
  apply (running_has_at_most_one_open_watcher
           (mkServer initialCache [true] (Some 0) 3)).
  apply (running_start ["node"; "dist/index.js"; "--watch"] None true).
  reflexivity.
Defined.

(** How the process starts: it ends with code 1 when [--rules-dir] lacks
    its path, and with code 0 when the command line is well formed and
    asks for help, wherever the flag stands. Otherwise it runs, with an
    empty cache, and with one open watcher exactly when [--watch] is given
    and the rules directory exists at that moment; without the directory
    it runs without a watcher. *)
Theorem startProcess_outcome
    (argv : list string) (env : option string) (dirExists : bool) :
  let args := skipn 2 argv in
  (startProcess argv env dirExists = Exit 1
   <-> Cli.flagWithoutValue args = true)
  /\ (startProcess argv env dirExists = Exit 0
      <-> Cli.flagWithoutValue args = false
          /\ existsb Cli.isHelpFlag args = true)
  /\ (forall srv, startProcess argv env dirExists = Done srv ->
        srvCache srv = initialCache
        /\ openWatchers srv
           = if existsb Cli.isWatchFlag args && dirExists then 1 else 0).
Proof.
  cbv zeta. unfold startProcess. rewrite parseArguments_closed_form.
  generalize (skipn 2 argv). intro args.
  destruct (Cli.flagWithoutValue args).
  - split; [split; reflexivity|]. split; [|discriminate].
    split; [discriminate | intros [H _]; discriminate H].
  - cbn [Cli.help Cli.watch Cli.keyboard].
    destruct (existsb Cli.isHelpFlag args).
    + split; [split; discriminate|]. split; [|discriminate].
      split; [now split | reflexivity].
    + split; [split; discriminate|]. split.
      * split; [discriminate | intros [_ H]; discriminate H].
      * intros srv H. injection H as <-.
        destruct (existsb Cli.isWatchFlag args), dirExists,
                 (existsb Cli.isKeyboardFlag args);
          split; reflexivity.
Qed.

Lemma startProcess_outcome_witness :
  startProcess ["node"; "dist/index.js"; "-w"; "--rules-dir"] None true = Exit 1.
Proof.
  exact (proj2 (proj1 (startProcess_outcome
                         ["node"; "dist/index.js"; "-w"; "--rules-dir"]
                         None true)) eq_refl).
Defined.

Lemma deliver_closed (n : nat) (eventType : string) (filename : option string)
    (cache : Cache) :
  deliver (repeat false n ++ [false]) eventType filename cache = cache.
Proof. induction n as [|n IH]; simpl; [reflexivity | exact IH]. Qed.

(** The restart key: in a running process a line that reads [r] empties
    the cache, so that the next read scans. Afterwards one watcher is open
    when [globalWatcher] was set and the rules directory exists; when the
    directory is missing no watcher is open and file events no longer
    reach the cache; and when no watcher was ever set up (no [--watch], or
    no directory at the start) the restart sets none up. *)
Theorem restart_key (dirExists : bool) (input : string) (srv srv' : Server) :
  running srv ->
  Text.toLowerCase (Text.trim input) = "r" ->
  onLine dirExists input srv = Done srv' ->
  srvCache srv' = invalidate (srvCache srv)
  /\ (forall rulesDir now,
        rescans (snd (getCachedProjectRules rulesDir now (srvCache srv'))) = 1)
  /\ openWatchers srv'
     = (match globalWatcher srv with
        | Some _ => if dirExists then 1 else 0
        | None => 0
        end)
  /\ (openWatchers srv' = 0 ->
      forall eventType filename,
        srvCache (fileEvent eventType filename srv') = srvCache srv').
Proof.
  intros Hrun Hkey Hline. unfold onLine in Hline. rewrite Hkey in Hline.
  cbn [String.eqb Ascii.eqb Bool.eqb andb] in Hline.
  change (String.eqb "r" "q") with false in Hline.
  change (String.eqb "r" "r") with true in Hline. cbv iota in Hline.
  injection Hline as <-.
  destruct (running_shape srv Hrun) as [[[Hw Hg]|(n & b & Hw & Hg)] _].
  - rewrite Hg. cbn [srvCache watchers]. rewrite Hw.
    split; [reflexivity|]. split; [intros; now rewrite rescans_read|].
    split; [reflexivity|]. intros _ eventType filename. reflexivity.
  - rewrite Hg, Hw.
    assert (Hclose : closeAt n (repeat false n ++ [b]) = repeat false n ++ [false]).
    { clear. induction n as [|n IHn]; simpl; [reflexivity | now rewrite IHn]. }
    rewrite Hclose.
    destruct dirExists; cbn [setupFileWatcher srvCache watchers].
    + split; [reflexivity|]. split; [intros; now rewrite rescans_read|].
      unfold openWatchers. cbn [watchers].
      rewrite filter_app, filter_open_repeat. simpl.
      split; [reflexivity | discriminate].
    + split; [reflexivity|]. split; [intros; now rewrite rescans_read|].
      unfold openWatchers. cbn [watchers]. rewrite filter_open_repeat.
      split; [reflexivity|]. intros _ eventType filename.
      unfold fileEvent. cbn [srvCache watchers]. apply deliver_closed.
Qed.

Lemma restart_key_witness :
  openWatchers (mkServer (mkCache [] 0) [false] (Some 0) 3) = 0.
Proof.
  assert (Hrun : running (mkServer initialCache [true] (Some 0) 3)).
  { apply (running_start ["node"; "dist/index.js"; "--watch"] None true).
    reflexivity. }
  exact (proj1 (proj2 (proj2 (restart_key false " R " _ _ Hrun eq_refl eq_refl)))).
Defined.

End Process.

Section KeyboardKeys.

Open Scope string_scope.

Lemma trimStart_blanks (ws rest : string) :
  allChars Text.isWhiteSpace ws = true ->
  Text.trimStart (ws ++ rest) = Text.trimStart rest.
Proof.
  induction ws as [|c ws IH]; [reflexivity|].
  cbn [allChars append Text.trimStart]. intro H.
  apply andb_true_iff in H as [Hc Hws]. rewrite Hc. now apply IH.
Qed.

Lemma trimEnd_blanks (ws : string) :
  allChars Text.isWhiteSpace ws = true -> Text.trimEnd ws = EmptyString.
Proof.
  induction ws as [|c ws IH]; [reflexivity|].
  cbn [allChars Text.trimEnd]. intro H.
  apply andb_true_iff in H as [Hc Hws]. now rewrite (IH Hws), Hc.
Qed.

Lemma trim_single (ws1 ws2 : string) (c : ascii) :
  allChars Text.isWhiteSpace ws1 = true ->
  allChars Text.isWhiteSpace ws2 = true ->
  Text.isWhiteSpace c = false ->
  Text.trim (ws1 ++ String c ws2) = String c EmptyString.
Proof.
  intros H1 H2 Hc. unfold Text.trim. rewrite (trimStart_blanks _ _ H1).
  cbn [Text.trimStart]. rewrite Hc. cbn [Text.trimEnd].
  now rewrite (trimEnd_blanks _ H2), Hc.
Qed.

Lemma letter_is_no_blank (c : ascii) :
  Text.lowerChar c = "q"%char \/ Text.lowerChar c = "r"%char ->
  Text.isWhiteSpace c = false.
Proof.
  destruct c as [[] [] [] [] [] [] [] []]; vm_compute;
    intros [H|H]; first [reflexivity | discriminate H].
Qed.

Lemma trimStart_split (s : string) :
  exists ws, allChars Text.isWhiteSpace ws = true /\ s = ws ++ Text.trimStart s.
Proof.
  induction s as [|c s (ws & Hws & Hs)].
  - exists EmptyString. now split.
  - cbn [Text.trimStart]. destruct (Text.isWhiteSpace c) eqn:Hc.
    + exists (String c ws). cbn [allChars append]. rewrite Hc, Hws.
      split; [reflexivity | now rewrite <- Hs].
    + exists EmptyString. now split.
Qed.

Lemma trimEnd_split (s : string) :
  exists ws, allChars Text.isWhiteSpace ws = true /\ s = Text.trimEnd s ++ ws.
Proof.
  induction s as [|c s (ws & Hws & Hs)].
  - exists EmptyString. now split.
  - cbn [Text.trimEnd]. destruct (Text.trimEnd s) as [|d rest] eqn:Ht.
    + cbn [append] in Hs. subst s.
      destruct (Text.isWhiteSpace c) eqn:Hc.
      * exists (String c ws). cbn [allChars append]. now rewrite Hc, Hws.
      * exists ws. now split.
    + exists ws. split; [exact Hws|]. cbn [append]. now rewrite Hs at 1.
Qed.

(** A line whose trimmed, lower-cased text is one letter is that letter,
    in either case, between blanks. *)
Lemma key_line_shape (input : string) (x : ascii) :
  Text.toLowerCase (Text.trim input) = String x EmptyString ->
  exists ws1 ws2 c,
    input = ws1 ++ String c ws2
    /\ allChars Text.isWhiteSpace ws1 = true
    /\ allChars Text.isWhiteSpace ws2 = true
    /\ Text.lowerChar c = x.
Proof.
  intro H.
  destruct (trimStart_split input) as (ws1 & Hws1 & H1).
  destruct (trimEnd_split (Text.trimStart input)) as (ws2 & Hws2 & H2).
  fold (Text.trim input) in H2.
  destruct (Text.trim input) as [|c [|d rest]]; try discriminate H.
  cbn [Text.toLowerCase] in H. injection H as Hc.
  exists ws1, ws2, c. repeat split; try assumption.
  rewrite H1 at 1. now rewrite H2.
Qed.

(** The keys of the keyboard interface. A line made of ASCII white space,
    the letter [q] or [r] in either case, and ASCII white space is taken
    for that key: [q] ends the process with code 0, [r] acts as the bare
    line [r]. Among the lines of ASCII characters these are the only
    keys: a line that ends the process has the shape of [q], and a line
    of neither shape is passed over without any change. *)
Theorem keyboard_keys (dirExists : bool) (srv : Server) :
  (forall (ws1 ws2 : string) (c : ascii),
     allChars Text.isWhiteSpace ws1 = true ->
     allChars Text.isWhiteSpace ws2 = true ->
     (Text.lowerChar c = "q"%char ->
        onLine dirExists (ws1 ++ String c ws2) srv = Exit 0)
     /\ (Text.lowerChar c = "r"%char ->
           onLine dirExists (ws1 ++ String c ws2) srv
           = onLine dirExists "r" srv))
  /\ (forall input,
        allChars Text.isAscii input = true ->
        (onLine dirExists input srv = Exit 0 ->
           exists ws1 ws2 c,
             input = ws1 ++ String c ws2
             /\ allChars Text.isWhiteSpace ws1 = true
             /\ allChars Text.isWhiteSpace ws2 = true
             /\ Text.lowerChar c = "q"%char)
        /\ ((forall ws1 ws2 c,
               input = ws1 ++ String c ws2 ->
               allChars Text.isWhiteSpace ws1 = true ->
               allChars Text.isWhiteSpace ws2 = true ->
               Text.lowerChar c <> "q"%char /\ Text.lowerChar c <> "r"%char) ->
            onLine dirExists input srv = Done srv)).
Proof.
  split.
  - intros ws1 ws2 c H1 H2. split; intro Hc.
    + unfold onLine.
      rewrite (trim_single ws1 ws2 c H1 H2 (letter_is_no_blank c (or_introl Hc))).
      cbn [Text.toLowerCase]. rewrite Hc. reflexivity.
    + unfold onLine.
      rewrite (trim_single ws1 ws2 c H1 H2 (letter_is_no_blank c (or_intror Hc))).
      cbn [Text.toLowerCase]. rewrite Hc. reflexivity.
  - intros input _. split.
    + unfold onLine.
      destruct (String.eqb_spec (Text.toLowerCase (Text.trim input)) "q")
        as [Hq|_].
      * intros _. now apply key_line_shape.
      * destruct (String.eqb (Text.toLowerCase (Text.trim input)) "r");
          discriminate.
    + intro Hshape. unfold onLine.
      destruct (String.eqb_spec (Text.toLowerCase (Text.trim input)) "q")
        as [Hq|_].
      * apply key_line_shape in Hq. destruct Hq as (ws1 & ws2 & c & Hi & H1 & H2 & Hc).
        exfalso. now apply (proj1 (Hshape ws1 ws2 c Hi H1 H2)).
      * destruct (String.eqb_spec (Text.toLowerCase (Text.trim input)) "r")
          as [Hr|_]; [|reflexivity].
        apply key_line_shape in Hr. destruct Hr as (ws1 & ws2 & c & Hi & H1 & H2 & Hc).
        exfalso. now apply (proj2 (Hshape ws1 ws2 c Hi H1 H2)).
Qed.

Lemma keyboard_keys_witness :
  onLine true ("  " ++ String "Q" " ")
         (mkServer initialCache [] None 0) = Exit 0
  /\ onLine true "quit" (mkServer initialCache [] None 0)
     = Done (mkServer initialCache [] None 0).
Proof.
  split.
  - exact (proj1 (proj1 (keyboard_keys true (mkServer initialCache [] None 0))
                        "  " " " "Q"%char eq_refl eq_refl) eq_refl).
  - apply (proj2 (proj2 (keyboard_keys true (mkServer initialCache [] None 0))
                        "quit" eq_refl)).
    intros ws1 ws2 c Hi H1 H2.
    destruct ws1 as [|w ws1].
    + cbn [append] in Hi. injection Hi as <- <-. discriminate H2.
    + cbn [append] in Hi. injection Hi as <- _. discriminate H1.
Defined.

End KeyboardKeys.

(* ================================================================== *)
(** ** The version check *)
(* ================================================================== *)

Section VersionCheck.

Import Version.

Open Scope string_scope.

Lemma compareFrom_antisym (p1 p2 : list Num) (n : nat) : forall i,
  compareFrom p2 p1 i n = (- compareFrom p1 p2 i n)%Z
  /\ (compareFrom p1 p2 i n = (-1)%Z \/ compareFrom p1 p2 i n = 0%Z
      \/ compareFrom p1 p2 i n = 1%Z).
Proof.
  induction n as [|n IH]; intro i; cbn [compareFrom].
  - split; [reflexivity | right; left; reflexivity].
  - cbv zeta.
    destruct (Z.ltb_spec (partOrZero p1 i) (partOrZero p2 i)) as [H12|H12];
    destruct (Z.ltb_spec (partOrZero p2 i) (partOrZero p1 i)) as [H21|H21];
      try lia.
    apply IH.
Qed.

(** The comparison is antisymmetric: on the versions for which it is
    modelled, [compareVersions] answers -1, 0 or 1, and with the two
    versions exchanged it answers the opposite. *)
Theorem compareVersions_antisymmetric (version1 version2 : string) (c : Z) :
  compareVersions version1 version2 = Some c ->
  compareVersions version2 version1 = Some (- c)%Z
  /\ (c = (-1)%Z \/ c = 0%Z \/ c = 1%Z).
Proof.
  unfold compareVersions.
  destruct (numbers (splitDot version1)) as [p1|]; [|discriminate].
  destruct (numbers (splitDot version2)) as [p2|]; [|discriminate].
  intro H. injection H as <-.
  rewrite (Nat.max_comm (List.length p2)).
  destruct (compareFrom_antisym p1 p2
              (Nat.max (List.length p1) (List.length p2)) 0) as [Ha Hr].
  now rewrite Ha.
Qed.

Lemma compareVersions_antisymmetric_witness :
  compareVersions "1.9.0" "1.10.0" = Some (- 1)%Z.
Proof.
  exact (proj1 (compareVersions_antisymmetric "1.10.0" "1.9.0" 1 eq_refl)).
Defined.

Lemma digit_facts (c : ascii) :
  isDigit c = true ->
  Ascii.eqb c "." = false /\ isIdentChar c = true.
Proof.
  destruct c as [[] [] [] [] [] [] [] []]; vm_compute; intro H;
    first [discriminate H | split; reflexivity].
Qed.

Lemma allChars_impl (p q : ascii -> bool) (s : string) :
  (forall c, p c = true -> q c = true) ->
  allChars p s = true -> allChars q s = true.
Proof.
  intro Hpq. induction s as [|c s IH]; [reflexivity|].
  cbn [allChars]. intro H. apply andb_true_iff in H as [Hc Hs].
  now rewrite (Hpq c Hc), IH.
Qed.

Lemma splitDot_noDot (s : string) :
  allChars noDot s = true -> splitDot s = [s].
Proof.
  induction s as [|c s IH]; [reflexivity|].
  cbn [allChars splitDot]. intro H. apply andb_true_iff in H as [Hc Hs].
  unfold noDot in Hc. apply negb_true_iff in Hc. now rewrite Hc, (IH Hs).
Qed.

Lemma splitDot_append_dot (a rest : string) :
  allChars noDot a = true ->
  splitDot (a ++ "." ++ rest) = a :: splitDot rest.
Proof.
  induction a as [|c a IH]; [reflexivity|].
  cbn [allChars append splitDot]. intro H.
  apply andb_true_iff in H as [Hc Ha].
  unfold noDot in Hc. apply negb_true_iff in Hc. rewrite Hc.
  cbn [append] in IH. now rewrite (IH Ha).
Qed.

Lemma dropWhile_all (p : ascii -> bool) (s : string) :
  allChars p s = true -> dropWhile p s = EmptyString.
Proof.
  induction s as [|c s IH]; [reflexivity|].
  cbn [allChars dropWhile]. intro H. apply andb_true_iff in H as [Hc Hs].
  now rewrite Hc, IH.
Qed.

Lemma dropWhile_append (p : ascii -> bool) (s : string) (x : ascii)
    (rest : string) :
  allChars p s = true -> p x = false ->
  dropWhile p (s ++ String x rest) = String x rest.
Proof.
  intros Hs Hx. induction s as [|c s IH].
  - cbn [append dropWhile]. now rewrite Hx.
  - cbn [allChars] in Hs. apply andb_true_iff in Hs as [Hc Hs].
    cbn [append dropWhile]. rewrite Hc. now apply IH.
Qed.

Lemma some_append (p : ascii -> bool) (s : string) (x : ascii) (rest : string) :
  s <> EmptyString -> allChars p s = true -> p x = false ->
  some p (s ++ String x rest) = Some (String x rest).
Proof.
  intros Hne Hs Hx. destruct s as [|c s]; [contradiction|].
  pose proof (dropWhile_append p (String c s) x rest Hs Hx) as Hd.
  cbn [allChars] in Hs. apply andb_true_iff in Hs as [Hc _].
  unfold some. cbn [append] in *. now rewrite Hc, Hd.
Qed.

Lemma some_all (p : ascii -> bool) (s : string) :
  s <> EmptyString -> allChars p s = true -> some p s = Some EmptyString.
Proof.
  intros Hne Hs. destruct s as [|c s]; [contradiction|].
  pose proof (dropWhile_all p (String c s) Hs) as Hd.
  cbn [allChars] in Hs. apply andb_true_iff in Hs as [Hc _].
  unfold some. now rewrite Hc, Hd.
Qed.

Lemma isPart_facts (s : string) :
  isPart s = true ->
  s <> EmptyString /\ allChars isDigit s = true
  /\ allChars noDot s = true
  /\ Number s = Some (Finite (digitsValue 0 s)).
Proof.
  unfold isPart. intro H.
  apply andb_true_iff in H as [H Hlen]. apply andb_true_iff in H as [Hne Hd].
  apply negb_true_iff, String.eqb_neq in Hne.
  repeat split; try assumption.
  - apply (allChars_impl isDigit); [|exact Hd].
    intros c Hc. unfold noDot. now rewrite (proj1 (digit_facts c Hc)).
  - unfold Number. now rewrite Hd, Hlen.
Qed.

(** The pattern accepts [a.b.c] followed by what [suffixAndEnd]
    accepts, when that does not begin with a digit. *)
Lemma validate_parts (a b c : string) (x : ascii) (rest : string) :
  isPart a = true -> isPart b = true -> isPart c = true ->
  isDigit x = false ->
  validateVersionFormat (a ++ "." ++ b ++ "." ++ c ++ String x rest)
  = suffixAndEnd (String x rest).
Proof.
  intros Ha Hb Hc Hx.
  destruct (isPart_facts a Ha) as (Hna & Hda & _ & _).
  destruct (isPart_facts b Hb) as (Hnb & Hdb & _ & _).
  destruct (isPart_facts c Hc) as (Hnc & Hdc & _ & _).
  unfold validateVersionFormat. cbn [append].
  rewrite (some_append isDigit a "." _ Hna Hda eq_refl). cbn [dot].
  change (Ascii.eqb "." ".") with true. cbv iota.
  rewrite (some_append isDigit b "." _ Hnb Hdb eq_refl). cbn [dot].
  change (Ascii.eqb "." ".") with true. cbv iota.
  now rewrite (some_append isDigit c x rest Hnc Hdc Hx).
Qed.

Lemma validate_plain (a b c : string) :
  isPart a = true -> isPart b = true -> isPart c = true ->
  validateVersionFormat (a ++ "." ++ b ++ "." ++ c) = true.
Proof.
  intros Ha Hb Hc.
  destruct (isPart_facts a Ha) as (Hna & Hda & _ & _).
  destruct (isPart_facts b Hb) as (Hnb & Hdb & _ & _).
  destruct (isPart_facts c Hc) as (Hnc & Hdc & _ & _).
  unfold validateVersionFormat. cbn [append].
  rewrite (some_append isDigit a "." _ Hna Hda eq_refl). cbn [dot].
  change (Ascii.eqb "." ".") with true. cbv iota.
  rewrite (some_append isDigit b "." _ Hnb Hdb eq_refl). cbn [dot].
  change (Ascii.eqb "." ".") with true. cbv iota.
  now rewrite (some_all isDigit c Hnc Hdc).
Qed.

Lemma numbers_plain (a b c : string) :
  isPart a = true -> isPart b = true -> isPart c = true ->
  numbers (splitDot (a ++ "." ++ b ++ "." ++ c))
  = Some [Finite (digitsValue 0 a); Finite (digitsValue 0 b);
          Finite (digitsValue 0 c)].
Proof.
  intros Ha Hb Hc.
  destruct (isPart_facts a Ha) as (_ & _ & Hda & Hva).
  destruct (isPart_facts b Hb) as (_ & _ & Hdb & Hvb).
  destruct (isPart_facts c Hc) as (_ & _ & Hdc & Hvc).
  rewrite (splitDot_append_dot a _ Hda), (splitDot_append_dot b _ Hdb),
          (splitDot_noDot c Hdc).
  cbn [numbers]. now rewrite Hva, Hvb, Hvc.
Qed.

Lemma compareFrom_triples (x y x' y' z' : Z) (n3 : Num) :
  compareFrom [Finite x; Finite y; n3] [Finite x'; Finite y'; Finite z'] 0 3
  = match compareTriples x y (third n3) x' y' z' with
    | Lt => (-1)%Z
    | Eq => 0%Z
    | Gt => 1%Z
    end.
Proof.
  cbn [compareFrom partOrZero nth_error]. unfold compareTriples.
  replace (match n3 with Finite z => z | NaN => 0%Z end) with (third n3)
    by now destruct n3.
  destruct (Z.compare_spec x x') as [Hx|Hx|Hx];
    destruct (Z.ltb_spec x x'); destruct (Z.ltb_spec x' x); try lia;
    try reflexivity.
  destruct (Z.compare_spec y y') as [Hy|Hy|Hy];
    destruct (Z.ltb_spec y y'); destruct (Z.ltb_spec y' y); try lia;
    try reflexivity.
  destruct (Z.compare_spec (third n3) z') as [Hz|Hz|Hz];
    destruct (Z.ltb_spec (third n3) z'); destruct (Z.ltb_spec z' (third n3));
    try lia; reflexivity.
Qed.

Lemma tag_not_empty (tagName version : string) :
  cleanVersion tagName = version -> version <> EmptyString ->
  String.eqb tagName EmptyString = false.
Proof.
  intros Hc Hne. apply String.eqb_neq. intros ->. now apply Hne.
Qed.

(** Plain versions: for a tag [a.b.c], with or without the leading [v],
    and a package version [a'.b'.c'], all parts being decimal numbers of
    at most 15 digits, the check compares major, minor and patch as
    numbers: a lower tag ends the process with code 1, an equal one is
    announced as a match and a higher one as an upgrade. *)
Theorem main_compares_plain_versions
    (argv : list string) (tagName a b c a' b' c' : string) :
  nth_error argv 2 = Some tagName ->
  cleanVersion tagName = a ++ "." ++ b ++ "." ++ c ->
  isPart a = true -> isPart b = true -> isPart c = true ->
  isPart a' = true -> isPart b' = true -> isPart c' = true ->
  main argv (Some (a' ++ "." ++ b' ++ "." ++ c'))
  = Some (match compareTriples (digitsValue 0 a) (digitsValue 0 b)
                               (digitsValue 0 c) (digitsValue 0 a')
                               (digitsValue 0 b') (digitsValue 0 c') with
          | Lt => Exit 1
          | Eq => Done VersionMatch
          | Gt => Done VersionUpgrade
          end).
Proof.
  intros Hargv Hclean Ha Hb Hc Ha' Hb' Hc'.
  unfold main. rewrite Hargv.
  rewrite (tag_not_empty tagName _ Hclean).
  2:{ destruct (isPart_facts a Ha) as (Hna & _). destruct a; [contradiction|].
      discriminate. }
  rewrite Hclean, (validate_plain a b c Ha Hb Hc). cbn [negb].
  unfold compareVersions.
  rewrite (numbers_plain a b c Ha Hb Hc), (numbers_plain a' b' c' Ha' Hb' Hc').
  cbn [List.length Nat.max].
  rewrite (compareFrom_triples _ _ _ _ _ (Finite (digitsValue 0 c))).
  cbn [third].
  now destruct (compareTriples (digitsValue 0 a) (digitsValue 0 b)
                 (digitsValue 0 c) (digitsValue 0 a') (digitsValue 0 b')
                 (digitsValue 0 c')).
Qed.

Lemma main_compares_plain_versions_witness :
  main ["node"; "validate-version.js"; "v1.10.0"] (Some ("1" ++ "." ++ "9" ++ "." ++ "0"))
  = Some (Done VersionUpgrade).
Proof.
  exact (main_compares_plain_versions
           ["node"; "validate-version.js"; "v1.10.0"] "v1.10.0"
           "1" "10" "0" "1" "9" "0"
           eq_refl eq_refl eq_refl eq_refl eq_refl eq_refl eq_refl eq_refl).
Defined.

Lemma number_prerelease (c pre : string) :
  isPart c = true -> Number (c ++ "-" ++ pre) = Some NaN.
Proof.
  intro Hc. destruct (isPart_facts c Hc) as (Hnc & Hdc & _ & _).
  unfold Number. cbn [append].
  assert (Hnot : allChars isDigit (c ++ String "-" pre) = false).
  { rewrite allChars_append. cbn [allChars].
    change (isDigit "-") with false. cbn [andb]. apply andb_false_r. }
  rewrite Hnot.
  now rewrite (some_append isDigit c "-" pre Hnc Hdc eq_refl).
Qed.

(** A pre-release tag loses its patch number: for a tag [a.b.c-pre] and a
    package version [a'.b'.c'], the check compares [a.b.0] with
    [a'.b'.c']. The tag is accepted by the format check, and when major
    and minor are those of the package and the patch of the package is not
    0, the process ends with code 1 whatever the patch [c] of the tag
    is. *)
Theorem main_drops_patch_of_prerelease
    (argv : list string) (tagName a b c pre a' b' c' : string) :
  nth_error argv 2 = Some tagName ->
  cleanVersion tagName = a ++ "." ++ b ++ "." ++ c ++ "-" ++ pre ->
  isPart a = true -> isPart b = true -> isPart c = true ->
  isPreRelease pre = true ->
  isPart a' = true -> isPart b' = true -> isPart c' = true ->
  validateVersionFormat (cleanVersion tagName) = true
  /\ main argv (Some (a' ++ "." ++ b' ++ "." ++ c'))
     = Some (match compareTriples (digitsValue 0 a) (digitsValue 0 b) 0
                                  (digitsValue 0 a') (digitsValue 0 b')
                                  (digitsValue 0 c') with
             | Lt => Exit 1
             | Eq => Done VersionMatch
             | Gt => Done VersionUpgrade
             end)
  /\ (digitsValue 0 a = digitsValue 0 a' ->
      digitsValue 0 b = digitsValue 0 b' ->
      (0 < digitsValue 0 c')%Z ->
      main argv (Some (a' ++ "." ++ b' ++ "." ++ c')) = Some (Exit 1)).
Proof.
  intros Hargv Hclean Ha Hb Hc Hpre Ha' Hb' Hc'.
  assert (Hvalid : validateVersionFormat (cleanVersion tagName) = true).
  { rewrite Hclean.
    change (a ++ "." ++ b ++ "." ++ c ++ "-" ++ pre)
      with (a ++ "." ++ b ++ "." ++ c ++ String "-" pre).
    rewrite (validate_parts a b c "-" pre Ha Hb Hc eq_refl).
    unfold isPreRelease in Hpre. apply andb_true_iff in Hpre as [Hne Hall].
    apply negb_true_iff, String.eqb_neq in Hne.
    cbn [suffixAndEnd]. change (Ascii.eqb "-" "-") with true. cbv iota.
    rewrite (some_all isIdentChar pre Hne); [reflexivity|].
    revert Hall. apply allChars_impl.
    intros x Hx. now apply andb_true_iff in Hx as [Hx _]. }
  assert (Hmain : main argv (Some (a' ++ "." ++ b' ++ "." ++ c'))
     = Some (match compareTriples (digitsValue 0 a) (digitsValue 0 b) 0
                                  (digitsValue 0 a') (digitsValue 0 b')
                                  (digitsValue 0 c') with
             | Lt => Exit 1
             | Eq => Done VersionMatch
             | Gt => Done VersionUpgrade
             end)).
  { unfold main. rewrite Hargv.
    rewrite (tag_not_empty tagName _ Hclean).
    2:{ destruct (isPart_facts a Ha) as (Hna & _). destruct a; [contradiction|].
        discriminate. }
    rewrite Hvalid. cbn [negb]. rewrite Hclean.
    unfold compareVersions.
    rewrite (numbers_plain a' b' c' Ha' Hb' Hc').
    destruct (isPart_facts a Ha) as (_ & _ & Hda & Hva).
    destruct (isPart_facts b Hb) as (_ & _ & Hdb & Hvb).
    destruct (isPart_facts c Hc) as (_ & _ & Hdc & _).
    assert (Hdp : allChars noDot (c ++ "-" ++ pre) = true).
    { rewrite allChars_append, Hdc. cbn [append allChars andb].
      change (noDot "-") with true. cbn [andb].
      unfold isPreRelease in Hpre. apply andb_true_iff in Hpre as [_ Hall].
      revert Hall. apply allChars_impl.
      intros x Hx. now apply andb_true_iff in Hx as [_ Hx]. }
    rewrite (splitDot_append_dot a _ Hda), (splitDot_append_dot b _ Hdb),
            (splitDot_noDot _ Hdp).
    cbn [numbers]. rewrite Hva, Hvb, (number_prerelease c pre Hc).
    cbn [List.length Nat.max].
    rewrite (compareFrom_triples _ _ _ _ _ NaN). cbn [third].
    now destruct (compareTriples (digitsValue 0 a) (digitsValue 0 b) 0
                   (digitsValue 0 a') (digitsValue 0 b') (digitsValue 0 c')). }
  split; [exact Hvalid|]. split; [exact Hmain|].
  intros Hea Heb Hpos. rewrite Hmain. unfold compareTriples.
  rewrite Hea, Heb, !Z.compare_refl.
  now destruct (Z.compare_spec 0 (digitsValue 0 c')); try lia.
Qed.

Lemma main_drops_patch_of_prerelease_witness :
  main ["node"; "validate-version.js"; "v1.2.4-beta"]
       (Some ("1" ++ "." ++ "2" ++ "." ++ "3"))
  = Some (Exit 1).
Proof.
  apply (proj2 (proj2 (main_drops_patch_of_prerelease
           ["node"; "validate-version.js"; "v1.2.4-beta"] "v1.2.4-beta"
           "1" "2" "4" "beta" "1" "2" "3"
           eq_refl eq_refl eq_refl eq_refl eq_refl eq_refl
           eq_refl eq_refl eq_refl))).
  - reflexivity.
  - reflexivity.
  - reflexivity.
Defined.

End VersionCheck.

(* ================================================================== *)
(** ** From a file change to the next answer *)
(* ================================================================== *)

Section ChangeToAnswer.

Lemma deliver_open (n : nat) (eventType : string) (filename : option string)
    (cache : Cache) :
  deliver (repeat false n ++ [true]) eventType filename cache
  = fst (onWatchEvent eventType filename cache).
Proof. induction n as [|n IH]; simpl; [reflexivity | exact IH]. Qed.

(** A change reaches the next answer only through an open watcher. In a
    running process with its watcher open, after the event for a file
    ending in [.md] the next tool call is answered from a new scan,
    however young the cache was. With no watcher open, the same event
    changes nothing, and while a non-empty snapshot is at most 5000 ms old
    the tool call is still answered from it. *)
Theorem file_change_and_next_answer
    (srv : Server) (eventType file : string)
    (rulesDir : RulesDir) (now : Z) (key : string) :
  running srv ->
  JS.endsWith file ".md" = true ->
  let after := srvCache (fileEvent eventType (Some file) srv) in
  (openWatchers srv = 1 ->
     get rulesDir now after key
     = ruleResponse (fst (getProjectRules rulesDir)) key)
  /\ (openWatchers srv = 0 ->
      rulesCache (srvCache srv) <> [] ->
      (now - lastScanTime (srvCache srv) <= 5000)%Z ->
      get rulesDir now after key
      = ruleResponse (rulesCache (srvCache srv)) key).
Proof.
  intros Hrun Hmd after. subst after. rewrite !get_eq.
  unfold fileEvent. cbn [srvCache].
  destruct (running_shape srv Hrun) as [[[Hw Hg]|(n & b & Hw & Hg)] _];
    unfold openWatchers; rewrite Hw.
  - split; [discriminate|]. intros _ Hne Hnow. cbn [deliver].
    unfold getCachedProjectRules.
    assert (Hm : mustRescan now (srvCache srv) = false).
    { destruct (mustRescan now (srvCache srv)) eqn:Hm; [|reflexivity].
      apply mustRescan_iff in Hm. destruct Hm; [contradiction | lia]. }
    now rewrite Hm.
  - rewrite filter_open_repeat. destruct b; (split; [|]); try discriminate.
    + intros _. rewrite deliver_open. unfold onWatchEvent. rewrite Hmd.
      assert (Hne : String.eqb file EmptyString = false).
      { destruct file; [discriminate Hmd | reflexivity]. }
      rewrite Hne. cbn [negb andb fst].
      unfold getCachedProjectRules, invalidate. simpl.
      now destruct (getProjectRules rulesDir).
    + intros _ Hne Hnow. rewrite deliver_closed.
      unfold getCachedProjectRules.
      assert (Hm : mustRescan now (srvCache srv) = false).
      { destruct (mustRescan now (srvCache srv)) eqn:Hm; [|reflexivity].
        apply mustRescan_iff in Hm. destruct Hm; [contradiction | lia]. }
      now rewrite Hm.
Qed.

Lemma file_change_and_next_answer_witness :
  get scenarioRepo 1
      (srvCache (fileEvent "change" (Some "general/RULES.md")
                           (mkServer initialCache [true] (Some 0) 3)))
      "GENERAL-RULES"
  = Content (Str "# Rules").
Proof.
  assert (Hrun : running (mkServer initialCache [true] (Some 0) 3)).
  { apply (running_start ["node"; "dist/index.js"; "--watch"] None true).
    reflexivity. }
  exact (proj1 (file_change_and_next_answer
                  (mkServer initialCache [true] (Some 0) 3)
                  "change" "general/RULES.md" scenarioRepo 1 "GENERAL-RULES"
                  Hrun eq_refl) eq_refl).
Defined.

End ChangeToAnswer.

(* ================================================================== *)
(** ** Where the keys of a snapshot come from *)
(* ================================================================== *)

Section KeyProvenance.

(** Every entry of a scan is the key and the content of a readable file
    of a listed directory. *)
Lemma scan_entry_provenance (rulesDir : RulesDir) (k content : string) :
  In (k, content) (fst (getProjectRules rulesDir)) ->
  exists entries name toolFiles file,
    rulesDir = Root entries
    /\ In (Directory name (Some toolFiles)) entries
    /\ In (file, Some content) toolFiles
    /\ JS.endsWith file ".md" = true
    /\ k = ruleKey (JS.toUpperCase name) file.
Proof.
  intro H. rewrite getProjectRules_assignments in H.
  apply In_assignments in H. destruct H as [H|[]].
  destruct rulesDir as [| |entries]; simpl in H; try contradiction.
  apply in_flat_map in H. destruct H as (entry & Hentry & He).
  destruct entry as [n|n [toolFiles|]]; simpl in He; try contradiction.
  apply In_fileAssignments in He. destruct He as (file & Hf & Hmd & Hkey).
  exists entries, n, toolFiles, file. simpl in *. auto.
Qed.

(** C4. Every entry of every snapshot produced by a scan has the key of a
    readable file of a listed directory; the key holds a hyphen and so is
    not empty, and it is a non-empty string matching [[A-Z0-9_-]+]
    whenever the name of the directory and the name of the file without
    [.md] consist of ASCII letters, digits, [_] and [-]. With other names
    the pattern fails: the file [a b.md] of the directory [g] is accepted
    and its key [G-A B] has a space. *)
Theorem scan_keys_valid :
  (forall (rulesDir : RulesDir) (k content : string),
     In (k, content) (fst (getProjectRules rulesDir)) ->
     (k <> EmptyString /\ JS.includes k "-" = true)
     /\ (exists entries name toolFiles file,
           rulesDir = Root entries
           /\ In (Directory name (Some toolFiles)) entries
           /\ In (file, Some content) toolFiles
           /\ JS.endsWith file ".md" = true
           /\ k = ruleKey (JS.toUpperCase name) file)
     /\ (forall name file,
           k = ruleKey (JS.toUpperCase name) file ->
           JS.endsWith file ".md" = true ->
           allChars plainChar name = true ->
           allChars plainChar (stem file) = true ->
           validKey k = true))
  /\ (fst (getProjectRules spacedRepo) = [("G-A B", "# Spaced")]
      /\ validKey "G-A B" = false).
Proof.
  split; [|split; reflexivity].
  intros rulesDir k content Hin. split; [|split].
  - destruct (getProjectRules_ok rulesDir) as [_ Hdash].
    apply (in_map fst) in Hin.
    apply (proj1 (Forall_forall _ _) Hdash) in Hin. simpl in Hin.
    split; [|exact Hin]. intros ->. discriminate Hin.
  - now apply scan_entry_provenance.
  - intros name file -> Hmd Hname Hstem.
    rewrite (endsWith_md_stem file Hmd).
    rewrite (ruleKey_append_md _ _ (plain_excludes_md _ Hstem)).
    destruct (String.eqb (stem file) "README").
    + apply (validKey_compose (JS.toUpperCase name) "OVERVIEW");
        [now apply toUpperCase_plain | reflexivity].
    + apply validKey_compose; now apply toUpperCase_plain.
Qed.

Lemma scan_keys_valid_witness :
  In ("GENERAL-RULES", "# Rules") (fst (getProjectRules scenarioRepo))
  /\ validKey "GENERAL-RULES" = true.
Proof.
  assert (Hin : In ("GENERAL-RULES", "# Rules")
                   (fst (getProjectRules scenarioRepo))).
  { vm_compute. right. left. reflexivity. }
  split; [exact Hin|].
  exact (proj2 (proj2 (proj1 scan_keys_valid scenarioRepo
                         "GENERAL-RULES" "# Rules" Hin))
               "general" "RULES.md" eq_refl eq_refl eq_refl eq_refl).
Defined.

(** Upper case: every entry of a scan has the key derived from a
    directory name and a file name of the rules directory, and when these
    two names consist of ASCII characters the key is already in upper
    case: [toUpperCase] leaves it as it is. *)
Theorem scan_keys_upper_case (rulesDir : RulesDir) (k content : string) :
  In (k, content) (fst (getProjectRules rulesDir)) ->
  (exists entries name toolFiles file,
     rulesDir = Root entries
     /\ In (Directory name (Some toolFiles)) entries
     /\ In (file, Some content) toolFiles
     /\ JS.endsWith file ".md" = true
     /\ k = ruleKey (JS.toUpperCase name) file)
  /\ (forall name file,
        k = ruleKey (JS.toUpperCase name) file ->
        allChars Text.isAscii name = true ->
        allChars Text.isAscii file = true ->
        JS.toUpperCase k = k).
Proof.
  intro Hin. split; [now apply scan_entry_provenance|].
  intros name file -> _ _. apply ruleKey_upper.
Qed.

Lemma scan_keys_upper_case_witness :
  In ("GENERAL-OVERVIEW", "# Overview") (fst (getProjectRules scenarioRepo))
  /\ JS.toUpperCase "GENERAL-OVERVIEW" = "GENERAL-OVERVIEW".
Proof.
  assert (Hin : In ("GENERAL-OVERVIEW", "# Overview")
                   (fst (getProjectRules scenarioRepo))).
  { vm_compute. left. reflexivity. }
  split; [exact Hin|].
  exact (proj2 (scan_keys_upper_case scenarioRepo
                  "GENERAL-OVERVIEW" "# Overview" Hin)
               "general" "README.md" eq_refl eq_refl eq_refl).
Defined.

End KeyProvenance.

(* ================================================================== *)
(** ** The text of [ALL] *)
(* ================================================================== *)

Section SectionsOfAll.

Open Scope string_scope.












End SectionsOfAll.

Section AnswerToAll.

Open Scope string_scope.




End AnswerToAll.
